(** * Risk Language Bias Detector: a shallow embedding of the non-UI logic

    The development follows [RiskLanguageBiasDetector.py]: the segmenter
    [chunk_text], the key normaliser [normalize_keys], the relevance gate
    ([check_relevance] and the test of the main script), the parsing stage of
    [analyze_bias] and the aggregation loop of the main script.

    Conventions.
    - A Python [str] is a Rocq [string]; its characters are the ASCII code
      points.  Bytes 128..255 stand for no character of the model: they are
      neither white space nor letters.
    - A Python [int] is a [Z]; a [float] is a [spec_float] (IEEE 754 binary64
      as sign, mantissa and binary exponent).
    - A call either returns or raises: [result].  A [while] loop is run with
      fuel, [None] meaning that the loop is still running when the fuel is
      spent. *)

From Stdlib Require Import List ZArith Lia Bool Ascii String.
From Stdlib Require Import QArith Qpower Qabs Lqa Setoid.
From Stdlib Require Import Floats.SpecFloat.
From Stdlib Require Import Permutation.
Import ListNotations.

Open Scope string_scope.
Open Scope Z_scope.

(** ** Outcomes of a call *)

Inductive exn : Type :=
| AttributeError
| TypeError
| ValueError
| OverflowError
| ZeroDivisionError
| IndexError
| JSONDecodeError.

Inductive result (A : Type) : Type :=
| Ok (a : A)
| Raise (e : exn).

Arguments Ok {A} a.
Arguments Raise {A} e.

Definition bind {A B : Type} (r : result A) (k : A -> result B) : result B :=
  match r with
  | Ok a => k a
  | Raise e => Raise e
  end.

Notation "x <- r ;; k" := (bind r (fun x => k))
  (at level 61, r at next level, right associativity).

(** [[f(x) for x in l]]: the first exception aborts the comprehension. *)
Fixpoint mapM {A B : Type} (f : A -> result B) (l : list A) : result (list B) :=
  match l with
  | [] => Ok []
  | x :: l' => y <- f x ;; ys <- mapM f l' ;; Ok (y :: ys)
  end.

(** ** Strings *)

Module PyStr.

(** [str.isspace] on one ASCII character: TAB, LF, VT, FF, CR, the four
    separators FS, GS, RS, US, and the space. *)
Definition isspace (c : ascii) : bool :=
  let n := nat_of_ascii c in
  ((9 <=? n) && (n <=? 13) || (28 <=? n) && (n <=? 32))%nat.

Definition is_upper (c : ascii) : bool :=
  let n := nat_of_ascii c in ((65 <=? n) && (n <=? 90))%nat.

Definition is_lower (c : ascii) : bool :=
  let n := nat_of_ascii c in ((97 <=? n) && (n <=? 122))%nat.

Definition lower_char (c : ascii) : ascii :=
  if is_upper c then ascii_of_nat (nat_of_ascii c + 32) else c.

Definition upper_char (c : ascii) : ascii :=
  if is_lower c then ascii_of_nat (nat_of_ascii c - 32) else c.

Fixpoint map_chars (f : ascii -> ascii) (s : string) : string :=
  match s with
  | EmptyString => EmptyString
  | String c s' => String (f c) (map_chars f s')
  end.

(** [s.lower()] and [s.upper()] *)
Definition lower : string -> string := map_chars lower_char.
Definition upper : string -> string := map_chars upper_char.

(** [s.lstrip()], [s.rstrip()], [s.strip()] *)
Fixpoint lstrip (s : string) : string :=
  match s with
  | EmptyString => EmptyString
  | String c s' => if isspace c then lstrip s' else s
  end.

Fixpoint rstrip (s : string) : string :=
  match s with
  | EmptyString => EmptyString
  | String c s' =>
      match rstrip s' with
      | EmptyString => if isspace c then EmptyString else String c EmptyString
      | t => String c t
      end
  end.

Definition strip (s : string) : string := rstrip (lstrip s).

(** [s.split()]: the maximal runs of characters that are not white space.
    [cur] is the run being read. *)
Fixpoint split_from (cur : string) (s : string) : list string :=
  match s with
  | EmptyString => match cur with EmptyString => [] | _ => [cur] end
  | String c s' =>
      if isspace c
      then match cur with
           | EmptyString => split_from EmptyString s'
           | _ => cur :: split_from EmptyString s'
           end
      else split_from (cur ++ String c EmptyString) s'
  end.

Definition split (s : string) : list string := split_from EmptyString s.

(** [sep.join(l)] *)
Definition join (sep : string) (l : list string) : string := String.concat sep l.

(** An index as Python's slices read it: negative counts from the end, and
    the result is clamped to [0..n]. *)
Definition clamp_index (n i : Z) : Z :=
  if i <? 0 then Z.max (i + n) 0 else Z.min i n.

(** [l[a:b]] *)
Definition slice {A : Type} (l : list A) (a b : Z) : list A :=
  let n := Z.of_nat (List.length l) in
  let lo := clamp_index n a in
  let hi := clamp_index n b in
  firstn (Z.to_nat (hi - lo)) (skipn (Z.to_nat lo) l).

(** [s[a:b]] *)
Definition str_slice (s : string) (a b : Z) : string :=
  string_of_list_ascii (slice (list_ascii_of_string s) a b).

(** [s.find(c)] and [s.rfind(c)] for a one-character needle: the least and
    the greatest index of [c], or -1. *)
Fixpoint find_from (i : Z) (c : ascii) (s : string) : Z :=
  match s with
  | EmptyString => -1
  | String d s' => if Ascii.eqb d c then i else find_from (i + 1) c s'
  end.

Definition find (c : ascii) (s : string) : Z := find_from 0 c s.

Fixpoint rfind_from (i : Z) (c : ascii) (s : string) : Z :=
  match s with
  | EmptyString => -1
  | String d s' =>
      let r := rfind_from (i + 1) c s' in
      if 0 <=? r then r else if Ascii.eqb d c then i else -1
  end.

Definition rfind (c : ascii) (s : string) : Z := rfind_from 0 c s.

(** [needle in s] for strings *)
Fixpoint contains (needle s : string) : bool :=
  if String.prefix needle s then true
  else match s with
       | EmptyString => false
       | String _ s' => contains needle s'
       end.

End PyStr.

(** ** The segmenter *)

(** The state of the [while] loop of [chunk_text]. *)
Record chunk_state : Type := mkChunk {
  start : Z;
  segments : list string
}.

(** One test of the loop condition: [inl] is the state after the body,
    [inr] the value returned once [start < len(words)] fails. *)
Definition chunk_iter (words : list string) (chunk_size overlap : Z)
    (st : chunk_state) : chunk_state + list string :=
  if start st <? Z.of_nat (List.length words) then
    let end_ := start st + chunk_size in
    let seg := PyStr.join " " (PyStr.slice words (start st) end_) in
    inl (mkChunk (start st + (chunk_size - overlap)) (segments st ++ [seg])%list)
  else inr (segments st).

Fixpoint chunk_loop (fuel : nat) (words : list string) (chunk_size overlap : Z)
    (st : chunk_state) : option (result (list string)) :=
  match fuel with
  | O => None
  | S fuel' =>
      match chunk_iter words chunk_size overlap st with
      | inl st' => chunk_loop fuel' words chunk_size overlap st'
      | inr segs => Some (Ok segs)
      end
  end.

Definition chunk_text (fuel : nat) (text : string) (chunk_size overlap : Z)
    : option (result (list string)) :=
  let words := PyStr.split text in
  chunk_loop fuel words chunk_size overlap (mkChunk 0 []).

(** The call of the main script: [chunk_text(raw_text)] with the defaults. *)
Definition chunk_text_default (fuel : nat) (text : string) :=
  chunk_text fuel text 300 50.

(** The words of the segments without the first [overlap] words of each. *)
Definition new_words (overlap : Z) (segs : list string) : list string :=
  List.concat (map (fun seg => skipn (Z.to_nat overlap) (PyStr.split seg)) segs).

(** The word sequence read back from the segments: all the words of the first
    segment, and the words of every later one but its first [overlap]. *)
Definition reassemble (overlap : Z) (segs : list string) : list string :=
  match segs with
  | [] => []
  | s :: rest => (PyStr.split s ++ new_words overlap rest)%list
  end.

(** ** Values *)

(** The values [json.loads] can return. *)
#[local] Unset Elimination Schemes.
Inductive pyval : Type :=
| PNone
| PBool (b : bool)
| PInt (z : Z)
| PFloat (f : spec_float)
| PStr (s : string)
| PList (l : list pyval)
| PDict (d : list (string * pyval)).
#[local] Set Elimination Schemes.

(** A [dict] with [str] keys, in insertion order. *)
Definition dict (V : Type) : Type := list (string * V).

Fixpoint dict_get {V : Type} (k : string) (d : dict V) : option V :=
  match d with
  | [] => None
  | (k', v) :: d' => if String.eqb k' k then Some v else dict_get k d'
  end.

(** [d[k] = v]: a key already there keeps its place. *)
Fixpoint dict_set {V : Type} (k : string) (v : V) (d : dict V) : dict V :=
  match d with
  | [] => [(k, v)]
  | (k', v') :: d' =>
      if String.eqb k' k then (k', v) :: d' else (k', v') :: dict_set k v d'
  end.

(** [d.get(k, default)] *)
Definition dict_get_default {V : Type} (k : string) (default : V) (d : dict V) : V :=
  match dict_get k d with
  | Some v => v
  | None => default
  end.

(** [acc.update(pairs)]: the pairs are set from left to right. *)
Definition dict_update {V : Type} (pairs : list (string * V)) (acc : dict V) : dict V :=
  fold_left (fun a kv => dict_set (fst kv) (snd kv) a) pairs acc.

(** [dict(pairs)], and the value of a dict comprehension over [pairs]. *)
Definition dict_of_pairs {V : Type} (pairs : list (string * V)) : dict V :=
  dict_update pairs [].

(** [v == s] and [v != s] for a string [s]: only an equal [str] is equal. *)
Definition eq_str (v : pyval) (s : string) : bool :=
  match v with
  | PStr t => String.eqb t s
  | _ => false
  end.

Definition ne_str (v : pyval) (s : string) : bool := negb (eq_str v s).

(** [s in v] for a string [s]. *)
Definition py_in (s : string) (v : pyval) : result bool :=
  match v with
  | PDict d => Ok (match dict_get s d with Some _ => true | None => false end)
  | PStr t => Ok (PyStr.contains s t)
  | PList l => Ok (existsb (fun x => eq_str x s) l)
  | _ => Raise TypeError
  end.

(** [v.get(k, default)]: only a dict has the method. *)
Definition py_get (v : pyval) (k : string) (default : pyval) : result pyval :=
  match v with
  | PDict d => Ok (dict_get_default k default d)
  | _ => Raise AttributeError
  end.

(** *** [int(v)] *)

Definition is_digit (c : ascii) : bool :=
  let n := nat_of_ascii c in ((48 <=? n) && (n <=? 57))%nat.

Definition digit_value (c : ascii) : Z := Z.of_nat (nat_of_ascii c) - 48.

(** Decimal digits, with single underscores allowed between two digits. *)
Fixpoint int_digits (acc : Z) (after_digit : bool) (s : string) : option Z :=
  match s with
  | EmptyString => if after_digit then Some acc else None
  | String c s' =>
      if is_digit c then int_digits (10 * acc + digit_value c) true s'
      else if Ascii.eqb c "_" then
        if after_digit then int_digits acc false s' else None
      else None
  end.

(** The white space [int] passes over around a number: TAB, LF, VT, FF, CR
    and the space.  The separators FS, GS, RS and US, which [str.strip]
    removes, are no white space here. *)
Definition int_space (c : ascii) : bool :=
  let n := nat_of_ascii c in ((9 <=? n) && (n <=? 13) || (n =? 32))%nat.

Fixpoint skip_int_space (s : string) : string :=
  match s with
  | String c s' => if int_space c then skip_int_space s' else s
  | EmptyString => EmptyString
  end.

Fixpoint drop_int_space_right (s : string) : string :=
  match s with
  | EmptyString => EmptyString
  | String c s' =>
      match drop_int_space_right s' with
      | EmptyString => if int_space c then EmptyString else String c EmptyString
      | t => String c t
      end
  end.

(** [int(s)] on a [str] [s] within the interpreter's limit on digits
    ([max_str_digits], applied in [py_int]): white space around the number,
    an optional sign, digits. *)
Definition int_of_str (s : string) : result Z :=
  let t := drop_int_space_right (skip_int_space s) in
  let r := match t with
           | String "+" d => int_digits 0 false d
           | String "-" d => option_map Z.opp (int_digits 0 false d)
           | _ => int_digits 0 false t
           end in
  match r with
  | Some z => Ok z
  | None => Raise ValueError
  end.

(** The interpreter's limit, as it is set by default, on the digits of a
    [str] given to [int]. *)
Definition max_str_digits : Z := 4300.

Fixpoint count_digits (s : string) : Z :=
  match s with
  | EmptyString => 0
  | String c s' => (if is_digit c then 1 else 0) + count_digits s'
  end.

(** [int(x)] for a [float]: truncation towards zero. *)
Definition int_of_float (f : spec_float) : result Z :=
  match f with
  | S754_zero _ => Ok 0
  | S754_infinity _ => Raise OverflowError
  | S754_nan => Raise ValueError
  | S754_finite s m e =>
      let a := if 0 <=? e then Z.pos m * 2 ^ e else Z.pos m / 2 ^ (- e) in
      Ok (if s then - a else a)
  end.

(** [int(v)].  A [str] of more than [max_str_digits] digits is refused
    with the [ValueError] of a text that is no number. *)
Definition py_int (v : pyval) : result Z :=
  match v with
  | PInt z => Ok z
  | PBool b => Ok (if b then 1 else 0)
  | PFloat f => int_of_float f
  | PStr s =>
      if max_str_digits <? count_digits s then Raise ValueError
      else int_of_str s
  | PNone | PList _ | PDict _ => Raise TypeError
  end.

(** ** The key normaliser *)

Definition mapping : dict string :=
  [ ("phrase", "phrase");
    ("category", "category");
    ("explanation", "explanation");
    ("bias_score", "bias_score");
    ("recommendation", "recommendation") ].

(** [mapping.get(k.lower(), k)] *)
Definition normalize_key (k : string) : string :=
  dict_get_default (PyStr.lower k) k mapping.

(** [{mapping.get(k.lower(), k): v for k, v in item.items()}] *)
Definition normalize_items (d : dict pyval) : dict pyval :=
  dict_of_pairs (map (fun kv => (normalize_key (fst kv), snd kv)) d).

Definition normalize_keys (item : pyval) : result pyval :=
  match item with
  | PDict d => Ok (PDict (normalize_items d))
  | _ => Raise AttributeError
  end.

(** ** A JSON decoder

    [json.loads] belongs to the interpreter's library, and the detector is
    stated for any decoder (see [Section Detector]).  [Json.loads] is the
    decoder used to run the detector on concrete replies.  It follows the
    grammar of CPython's [json.scanner] and [json.decoder] in strict mode on
    ASCII text: a [\u] escape that names a code point above 127 has no
    character in this model and is refused here, and neither the
    interpreter's recursion limit nor its limit on the length of integer
    literals is modelled. *)

Module Json.

(** [WHITESPACE]: space, TAB, LF, CR *)
Definition is_ws (c : ascii) : bool :=
  let n := nat_of_ascii c in
  ((n =? 32) || (n =? 9) || (n =? 10) || (n =? 13))%nat.

Fixpoint skip_ws (s : string) : string :=
  match s with
  | String c s' => if is_ws c then skip_ws s' else s
  | EmptyString => EmptyString
  end.

(** The longest prefix of digits, as its value and its length, and the rest. *)
Fixpoint digits (acc : Z) (len : Z) (s : string) : Z * Z * string :=
  match s with
  | String c s' =>
      if is_digit c then digits (10 * acc + digit_value c) (len + 1) s'
      else (acc, len, s)
  | EmptyString => (acc, len, s)
  end.

(** [float(numstr)]: the binary64 value nearest to [m * 10 ^ e10], ties to
    even.  A negative power of ten is divided out with 64 extra bits, the
    last bit recording a non-zero remainder. *)
Definition float_of_decimal (neg : bool) (m : Z) (e10 : Z) : spec_float :=
  if m =? 0 then S754_zero neg
  else
    let sign (x : Z) := if neg then - x else x in
    if 0 <=? e10 then binary_normalize 53 1024 (sign (m * 10 ^ e10)) 0 neg
    else
      let d := 10 ^ (- e10) in
      let k := 64 + Z.log2_up d in
      let q := (m * 2 ^ k) / d in
      let r := (m * 2 ^ k) mod d in
      let sticky := if r =? 0 then 0 else 1 in
      binary_normalize 53 1024 (sign (2 * q + sticky)) (- k - 1) neg.

(** The part of a number after its integer digits: fraction and exponent. *)
Definition number_tail (neg : bool) (int_part : Z) (s : string) : pyval * string :=
  let '(m, frac_len, is_float, s1) :=
    match s with
    | String "." s' =>
        let '(m, len, rest) := digits int_part 0 s' in
        if 0 <? len then (m, len, true, rest) else (int_part, 0, false, s)
    | _ => (int_part, 0, false, s)
    end in
  let '(e, is_float, s2) :=
    match s1 with
    | String c s' =>
        if Ascii.eqb c "e" || Ascii.eqb c "E" then
          let '(esign, s'') :=
            match s' with
            | String "+" t => (1, t)
            | String "-" t => (-1, t)
            | _ => (1, s')
            end in
          let '(ev, len, rest) := digits 0 0 s'' in
          if 0 <? len then (esign * ev, true, rest) else (0, is_float, s1)
        else (0, is_float, s1)
    | EmptyString => (0, is_float, s1)
    end in
  if is_float then (PFloat (float_of_decimal neg m (e - frac_len)), s2)
  else (PInt (if neg then - int_part else int_part), s2).

(** A number: an optional minus, then a single 0 or a run of digits that
    does not start with 0, then [number_tail]. *)
Definition number (s : string) : option (pyval * string) :=
  let '(neg, s0) := match s with String "-" t => (true, t) | _ => (false, s) end in
  match s0 with
  | String "0" t => Some (number_tail neg 0 t)
  | String c _ =>
      if is_digit c then
        let '(v, _, rest) := digits 0 0 s0 in Some (number_tail neg v rest)
      else None
  | EmptyString => None
  end.

Definition hex_value (c : ascii) : option Z :=
  let n := nat_of_ascii c in
  if is_digit c then Some (Z.of_nat n - 48)
  else if ((97 <=? n) && (n <=? 102))%nat then Some (Z.of_nat n - 87)
  else if ((65 <=? n) && (n <=? 70))%nat then Some (Z.of_nat n - 55)
  else None.

Definition hex4 (a b c d : ascii) : option Z :=
  match hex_value a, hex_value b, hex_value c, hex_value d with
  | Some x, Some y, Some z, Some w => Some (((x * 16 + y) * 16 + z) * 16 + w)
  | _, _, _, _ => None
  end.

Definition cons_char (c : ascii) (r : option (string * string)) :=
  match r with
  | Some (str, rest) => Some (String c str, rest)
  | None => None
  end.

(** [scanstring] in strict mode, from the character after the opening
    quote: the decoded string and the text after the closing quote. *)
Fixpoint scanstring (s : string) : option (string * string) :=
  match s with
  | EmptyString => None
  | String c s' =>
      if Ascii.eqb c (ascii_of_nat 34) then Some (EmptyString, s')
      else if Ascii.eqb c (ascii_of_nat 92) then
        match s' with
        | String "u" (String h1 (String h2 (String h3 (String h4 s'')))) =>
            match hex4 h1 h2 h3 h4 with
            | Some n =>
                if n <? 128 then cons_char (ascii_of_nat (Z.to_nat n)) (scanstring s'')
                else None
            | None => None
            end
        | String e s'' =>
            let unescaped :=
              if Ascii.eqb e (ascii_of_nat 34) then Some (ascii_of_nat 34)
              else if Ascii.eqb e (ascii_of_nat 92) then Some (ascii_of_nat 92)
              else if Ascii.eqb e "/" then Some "/"%char
              else if Ascii.eqb e "b" then Some (ascii_of_nat 8)
              else if Ascii.eqb e "f" then Some (ascii_of_nat 12)
              else if Ascii.eqb e "n" then Some (ascii_of_nat 10)
              else if Ascii.eqb e "r" then Some (ascii_of_nat 13)
              else if Ascii.eqb e "t" then Some (ascii_of_nat 9)
              else None in
            match unescaped with
            | Some u => cons_char u (scanstring s'')
            | None => None
            end
        | EmptyString => None
        end
      else if (nat_of_ascii c <? 32)%nat then None
      else cons_char c (scanstring s')
  end.

(** [s] without the prefix [p], when it starts with it. *)
Fixpoint strip_prefix (p s : string) : option string :=
  match p, s with
  | EmptyString, _ => Some s
  | String a p', String b s' => if Ascii.eqb a b then strip_prefix p' s' else None
  | String _ _, EmptyString => None
  end.

(** [scan_once]: one JSON term at the head of [s], and the text after it.
    [elements] reads a non-empty array from its first term, [members] a
    non-empty object from the quote of its first key. *)
Fixpoint scan_once (fuel : nat) (s : string) : option (pyval * string) :=
  match fuel with
  | O => None
  | S fuel' =>
      match s with
      | EmptyString => None
      | String c s' =>
          if Ascii.eqb c (ascii_of_nat 34) then
            match scanstring s' with
            | Some (str, rest) => Some (PStr str, rest)
            | None => None
            end
          else if Ascii.eqb c "{" then
            match skip_ws s' with
            | String "}" rest => Some (PDict [], rest)
            | body =>
                match members fuel' body [] with
                | Some (d, rest) => Some (PDict d, rest)
                | None => None
                end
            end
          else if Ascii.eqb c "[" then
            match skip_ws s' with
            | String "]" rest => Some (PList [], rest)
            | body =>
                match elements fuel' body with
                | Some (l, rest) => Some (PList l, rest)
                | None => None
                end
            end
          else
            match strip_prefix "null" s, strip_prefix "true" s,
                  strip_prefix "false" s with
            | Some rest, _, _ => Some (PNone, rest)
            | _, Some rest, _ => Some (PBool true, rest)
            | _, _, Some rest => Some (PBool false, rest)
            | None, None, None =>
                match strip_prefix "NaN" s, strip_prefix "Infinity" s,
                      strip_prefix "-Infinity" s with
                | Some rest, _, _ => Some (PFloat S754_nan, rest)
                | _, Some rest, _ => Some (PFloat (S754_infinity false), rest)
                | _, _, Some rest => Some (PFloat (S754_infinity true), rest)
                | None, None, None => number s
                end
            end
      end
  end

with elements (fuel : nat) (s : string) : option (list pyval * string) :=
  match fuel with
  | O => None
  | S fuel' =>
      match scan_once fuel' s with
      | Some (v, rest) =>
          match skip_ws rest with
          | String "]" rest' => Some ([v], rest')
          | String "," rest' =>
              match elements fuel' (skip_ws rest') with
              | Some (l, rest'') => Some (v :: l, rest'')
              | None => None
              end
          | _ => None
          end
      | None => None
      end
  end

with members (fuel : nat) (s : string) (acc : dict pyval)
    : option (dict pyval * string) :=
  match fuel with
  | O => None
  | S fuel' =>
      match s with
      | String c s' =>
          if Ascii.eqb c (ascii_of_nat 34) then
            match scanstring s' with
            | Some (key, rest) =>
                match skip_ws rest with
                | String ":" rest' =>
                    match scan_once fuel' (skip_ws rest') with
                    | Some (v, rest'') =>
                        let acc' := dict_set key v acc in
                        match skip_ws rest'' with
                        | String "}" rest3 => Some (acc', rest3)
                        | String "," rest3 => members fuel' (skip_ws rest3) acc'
                        | _ => None
                        end
                    | None => None
                    end
                | _ => None
                end
            | None => None
            end
          else None
      | EmptyString => None
      end
  end.

(** [json.loads(s)]: one term between optional white space, and nothing
    else.  Every term read takes at least one character, so the length of
    [s] bounds the depth of the calls. *)
Definition loads (s : string) : result pyval :=
  match scan_once (2 + String.length s) (skip_ws s) with
  | Some (v, rest) =>
      match skip_ws rest with
      | EmptyString => Ok v
      | _ => Raise JSONDecodeError
      end
  | None => Raise JSONDecodeError
  end.

End Json.

(** ** The report of a run *)

(** An f-string whose fields are kept as values: [Lit] is literal text,
    [Field v] stands for [str(v)], which returns on the values that
    [json.loads] yields. *)
Inductive piece : Type :=
| Lit (s : string)
| Field (v : pyval).

Definition fstring : Type := list piece.

(** What the main script asks the page to show, in order. *)
Inductive widget : Type :=
| SegmentHeader (idx : nat)
| ParseErrorBox
| RawText (v : pyval)
| IssueCard (phrase category explanation recommendation : pyval)
| Gauge (avg_score : spec_float)
| CategoryChart (categories : list pyval)
| Questionnaire (followups : list fstring)
| SelectionWarning.

(** The three accumulators of the analysis loop, and the page. *)
Record report : Type := mkReport {
  all_scores : list Z;
  all_categories : list pyval;
  followups : list fstring;
  page : list widget
}.

Definition empty_report : report := mkReport [] [] [] [].

Definition show (w : list widget) (st : report) : report :=
  mkReport (all_scores st) (all_categories st) (followups st) (page st ++ w)%list.

(** The body of [for item in results]. *)
Definition process_item (item : pyval) (st : report) : result report :=
  is_error <- py_in "error" item ;;
  if (is_error : bool) then
    raw <- py_get item "raw_output" (PStr "") ;;
    Ok (show [ParseErrorBox; RawText raw] st)
  else
    phrase <- py_get item "phrase" (PStr "N/A") ;;
    category <- py_get item "category" (PStr "N/A") ;;
    explanation <- py_get item "explanation" (PStr "N/A") ;;
    recommendation <- py_get item "recommendation" (PStr "N/A") ;;
    score <- py_get item "bias_score" (PInt 0) ;;
    let categories :=
      if ne_str category "N/A" then (all_categories st ++ [category])%list
      else all_categories st in
    let follow :=
      if ne_str recommendation "N/A"
      then (followups st ++ [[Lit "- "; Field recommendation]])%list
      else followups st in
    let scores :=
      match py_int score with
      | Ok n => (all_scores st ++ [n])%list
      | Raise _ => all_scores st
      end in
    Ok (mkReport scores categories follow
          (page st ++ [IssueCard phrase category explanation recommendation])%list).

Fixpoint process_items (items : list pyval) (st : report) : result report :=
  match items with
  | [] => Ok st
  | item :: rest => st' <- process_item item st ;; process_items rest st'
  end.

(** [if isinstance(results, list): for item in results: ...] *)
Definition process_results (results : pyval) (st : report) : result report :=
  match results with
  | PList items => process_items items st
  | _ => Ok st
  end.

Definition sum_scores (scores : list Z) : Z := fold_left Z.add scores 0.

(** The exact quotient of [sum(all_scores)] by [len(all_scores)] under
    [if all_scores:], as a rational in lowest terms.  The value the code
    computes is this quotient as the division of Python rounds it:
    [overall_score] below. *)
Definition avg_score (scores : list Z) : option Q :=
  match scores with
  | [] => None
  | _ => Some (Qred (inject_Z (sum_scores scores)
                     / inject_Z (Z.of_nat (List.length scores))))
  end.

(** *** [a / b] on [int]s

    The quotient of two [int]s is the [float] nearest to the exact quotient,
    ties going to the even mantissa; a quotient that rounds beyond the
    greatest float raises [OverflowError], one that rounds below the least
    subnormal number gives a zero. *)

(** The integer nearest to [x / y], ties to the even one, for [0 <= x] and
    [0 < y]. *)
Definition round_half_even (x y : Z) : Z :=
  let q := x / y in
  let r := x mod y in
  if 2 * r <? y then q
  else if y <? 2 * r then q + 1
  else if Z.even q then q else q + 1.

(** The integer nearest to [a / b / 2 ^ e]. *)
Definition scaled_quotient (a b e : Z) : Z :=
  round_half_even (a * 2 ^ Z.max 0 (- e)) (b * 2 ^ Z.max 0 e).

(** The exponent of binary64 at [a / b], for [0 < a] and [0 < b]: the [e]
    with [2 ^ 52 <= a / b / 2 ^ e < 2 ^ 53], and no less than -1074, the
    exponent of the subnormal numbers.  With [d] the difference of the bit
    lengths, [a / b] lies between [2 ^ (d - 1)] and [2 ^ (d + 1)]. *)
Definition quotient_exponent (a b : Z) : Z :=
  let d := Z.log2 a - Z.log2 b in
  let e := if a * 2 ^ Z.max 0 (- d) <? b * 2 ^ Z.max 0 d
           then d - 53 else d - 52 in
  Z.max e (-1074).

Definition int_true_div (a b : Z) : result spec_float :=
  if b =? 0 then Raise ZeroDivisionError
  else
    let sign := xorb (a <? 0) (b <? 0) in
    if a =? 0 then Ok (S754_zero sign)
    else
      let e := quotient_exponent (Z.abs a) (Z.abs b) in
      let m := scaled_quotient (Z.abs a) (Z.abs b) e in
      let '(m, e) := if m =? 2 ^ 53 then (2 ^ 52, e + 1) else (m, e) in
      if 971 <? e then Raise OverflowError
      else match m with
           | Z.pos p => Ok (S754_finite sign p e)
           | _ => Ok (S754_zero sign)
           end.

(** [avg_score = sum(all_scores) / len(all_scores)] under [if all_scores:];
    [None] when the list is empty and nothing is computed. *)
Definition overall_score (scores : list Z) : option (result spec_float) :=
  match scores with
  | [] => None
  | _ => Some (int_true_div (sum_scores scores) (Z.of_nat (List.length scores)))
  end.

(** [if all_scores: avg_score = ...; show_gauge(avg_score, ...)].  The
    division is outside any [try]: when it raises, the run ends there. *)
Definition summary_gauge (st : report) : result (list widget) :=
  match overall_score (all_scores st) with
  | Some quotient => avg <- quotient ;; Ok [Gauge avg]
  | None => Ok []
  end.

(** The summary under the analysis loop.  The questionnaire is built from
    [set(followups)]; the widget keeps the list the set is made of.  The
    widgets are what the script asks the page to show; a chart that the
    plotting library fails to draw is outside the model. *)
Definition summary_widgets (st : report) : result (list widget) :=
  gauge <- summary_gauge st ;;
  let chart :=
    match all_categories st with
    | [] => []
    | cats => [CategoryChart cats]
    end in
  let questions :=
    match followups st with
    | [] => []
    | fs => [Questionnaire fs]
    end in
  Ok (gauge ++ chart ++ questions)%list.

Definition summary (st : report) : result report :=
  w <- summary_widgets st ;; Ok (show w st).

(** ** The detector over a decoder and a model backend *)

Section Detector.

(** [json.loads] *)
Variable json_loads : string -> result pyval.

(** The text of the model's reply to a prompt:
    [ollama.chat(model, messages=[...prompt...])["message"]["content"]].
    The development covers the runs in which the backend answers every
    call.  A call that fails (no server, a reply without this field) raises
    outside any [try] and ends the run; such runs are outside the model. *)
Variable chat : string -> string.

Definition dq : string := String (ascii_of_nat 34) EmptyString.

Definition relevance_prompt (text : string) : string :=
  "
    You are an expert in third-party risk management.
    Determine if the following text is a vendor risk/compliance/security document 
    (like risk questionnaire responses, security policies, or audit reports).  

    Text: " ++ dq ++ PyStr.str_slice text 0 1000 ++ dq ++ "  # only first 1000 chars for quick check

    Answer ONLY with a single word:
    - " ++ dq ++ "YES" ++ dq ++ " if the text is related to vendor risk/compliance/security
    - " ++ dq ++ "NO" ++ dq ++ " if it is unrelated (story, essay, random text, etc.)
    ".

Definition check_relevance (text : string) : string :=
  let response := chat (relevance_prompt text) in
  PyStr.upper (PyStr.strip response).

Definition bias_prompt (segment : string) : string :=
  "
    You are an expert in third-party risk management.
    Analyze the following vendor response for biased, vague, or evasive language.

    Text: " ++ dq ++ segment ++ dq ++ "

    Respond ONLY with a valid JSON array of issues.
    Each issue must include:
    - phrase
    - category: Overconfidence | Ambiguity | Deflection | Downplaying
    - explanation
    - bias_score: 0-100
    - recommendation
    ".

(** A parse failure, as [analyze_bias] returns it. *)
Definition error_record (kind raw_output : string) : pyval :=
  PList [PDict [("error", PStr kind); ("raw_output", PStr raw_output)]].

(** The last line of [analyze_bias]. *)
Definition normalize_parsed (parsed : pyval) : result pyval :=
  match parsed with
  | PList items => l <- mapM normalize_keys items ;; Ok (PList l)
  | _ => Ok parsed
  end.

(** [analyze_bias] from the [try] on: strict parse, then the bracketed
    substring, then the error record.  A bare [except] catches whatever the
    decoder raises. *)
Definition parse_response (raw_output : string) : result pyval :=
  match json_loads raw_output with
  | Ok parsed => normalize_parsed parsed
  | Raise _ =>
      let start := PyStr.find "[" raw_output in
      let end_ := PyStr.rfind "]" raw_output + 1 in
      if negb (start =? -1) && negb (end_ =? -1) then
        match json_loads (PyStr.str_slice raw_output start end_) with
        | Ok parsed => normalize_parsed parsed
        | Raise _ => Ok (error_record "Parse error" raw_output)
        end
      else Ok (error_record "No JSON detected" raw_output)
  end.

Definition analyze_bias (segment : string) : result pyval :=
  let response := chat (bias_prompt segment) in
  let raw_output := PyStr.strip response in
  parse_response raw_output.

(** The relevance test of the main script. *)
Inductive gate : Type :=
| NotRelevant
| Relevant.

Definition main_gate (raw_text : string) : gate :=
  let relevance := check_relevance raw_text in
  if String.eqb relevance "NO" then NotRelevant else Relevant.

(** [for choice in selected].  A choice is the label of a segment; the loop
    reads the index [idx] back from the label, and the model keeps the index. *)
Fixpoint analysis_loop (segs : list string) (selected : list nat) (st : report)
    : result report :=
  match selected with
  | [] => Ok st
  | idx :: rest =>
      let st0 := show [SegmentHeader idx] st in
      segment <- match nth_error segs idx with
                 | Some seg => Ok seg
                 | None => Raise IndexError
                 end ;;
      results <- analyze_bias segment ;;
      st1 <- process_results results st0 ;;
      analysis_loop segs rest st1
  end.

(** The button [Run Bias Analysis]. *)
Definition run_analysis (segs : list string) (selected : list nat) : result report :=
  match selected with
  | [] => Ok (show [SelectionWarning] empty_report)
  | _ => st <- analysis_loop segs selected empty_report ;; summary st
  end.

End Detector.

(** ** Vocabulary of the properties *)

(** No character of [s] is white space. *)
Fixpoint no_space (s : string) : bool :=
  match s with
  | EmptyString => true
  | String c s' => negb (PyStr.isspace c) && no_space s'
  end.

(** A word, as [split] yields them. *)
Definition is_word (w : string) : Prop := w <> EmptyString /\ no_space w = true.

(** Every character of [s] is white space. *)
Fixpoint all_space (s : string) : bool :=
  match s with
  | EmptyString => true
  | String c s' => PyStr.isspace c && all_space s'
  end.

(** A reply that reads [no] in any case between optional white space. *)
Definition says_no (response : string) : Prop :=
  exists (before after : string) (x y : ascii),
    response = before ++ String x (String y after)
    /\ all_space before = true /\ all_space after = true
    /\ (x = "n" \/ x = "N")%char /\ (y = "o" \/ y = "O")%char.

(** [c] occurs in [s]. *)
Fixpoint occurs (c : ascii) (s : string) : bool :=
  match s with
  | EmptyString => false
  | String d s' => Ascii.eqb d c || occurs c s'
  end.

(** The five field names of an issue. *)
Definition canonical_fields : list string :=
  ["phrase"; "category"; "explanation"; "bias_score"; "recommendation"].

(** The keys of a dict, in order. *)
Definition keys {V : Type} (d : dict V) : list string := map fst d.

(** [del d[k]] *)
Fixpoint dict_del {V : Type} (k : string) (d : dict V) : dict V :=
  match d with
  | [] => []
  | (k', v) :: d' =>
      if String.eqb k' k then dict_del k d' else (k', v) :: dict_del k d'
  end.

(** The pairs of a dict comprehension with the keys normalised. *)
Definition normalized_pairs (d : dict pyval) : list (string * pyval) :=
  map (fun kv => (normalize_key (fst kv), snd kv)) d.

(** An issue record that carries a diagnostic instead of an issue. *)
Definition is_error_record (d : dict pyval) : bool :=
  match dict_get "error" d with
  | Some _ => true
  | None => false
  end.

(** The [bias_score] the aggregator reads from a record. *)
Definition score_of (d : dict pyval) : pyval :=
  dict_get_default "bias_score" (PInt 0) d.

(** The scores that convert to an integer, over the records that are
    issues, in order. *)
Definition convertible_scores (items : list (dict pyval)) : list Z :=
  flat_map (fun d =>
              if is_error_record d then []
              else match py_int (score_of d) with
                   | Ok n => [n]
                   | Raise _ => []
                   end) items.

(** The arithmetic mean of a list of integers. *)
Definition mean (l : list Z) : Q :=
  (inject_Z (fold_right Z.add 0%Z l) / inject_Z (Z.of_nat (List.length l)))%Q.

(** The number a finite float stands for. *)
Definition float_value (f : spec_float) : Q :=
  match f with
  | S754_finite s m e => inject_Z (if s then Z.neg m else Z.pos m) * 2 ^ e
  | _ => 0
  end.

(** A number of binary64: a zero, or a finite float of the format. *)
Definition is_binary64 (f : spec_float) : bool :=
  match f with
  | S754_zero _ => true
  | S754_finite _ m e => bounded 53 1024 m e
  | _ => false
  end.

(** [f] is a number of binary64 nearest to [q]. *)
Definition nearest_float (q : Q) (f : spec_float) : Prop :=
  is_binary64 f = true
  /\ forall g, is_binary64 g = true ->
       (Qabs (float_value f - q) <= Qabs (float_value g - q))%Q.

(** The values of binary64 lie on a grid: an integer of at most 53 bits
    times a power of two that is no less than the least. *)
Definition on_grid (v : Q) : Prop :=
  exists k eg,
    -1074 <= eg /\ Z.abs k < 2 ^ 53 /\ (v == inject_Z k * 2 ^ eg)%Q.

(** The floats 5.0, 10.0 and 15.0. *)
Definition float_5 : spec_float := S754_finite false 5629499534213120 (-50).
Definition float_10 : spec_float := S754_finite false 5629499534213120 (-49).
Definition float_15 : spec_float := S754_finite false 8444249301319680 (-49).

(** The score list in the words of the specification: the [bias_score]
    values that convert to an integer, over the issues that have one. *)
Definition stated_scores (items : list (dict pyval)) : list Z :=
  flat_map (fun d =>
              if is_error_record d then []
              else match dict_get "bias_score" d with
                   | Some v => match py_int v with
                               | Ok n => [n]
                               | Raise _ => []
                               end
                   | None => []
                   end) items.

(** Three issues with the scores 10, 20 and a string that is no number. *)
Definition three_issues : list (dict pyval) :=
  [ [("phrase", PStr "a"); ("bias_score", PInt 10)];
    [("phrase", PStr "b"); ("bias_score", PInt 20)];
    [("phrase", PStr "c"); ("bias_score", PStr "bad")] ].

Definition quoted (s : string) : string := dq ++ s ++ dq.

(** A JSON object with one issue, and a reply that wraps the array of it
    in prose. *)
Definition issue_object : string :=
  "{" ++ quoted "phrase" ++ ":" ++ quoted "a" ++ ","
      ++ quoted "category" ++ ":" ++ quoted "Deflection" ++ ","
      ++ quoted "bias_score" ++ ":40,"
      ++ quoted "explanation" ++ ":" ++ quoted "e" ++ ","
      ++ quoted "recommendation" ++ ":" ++ quoted "r" ++ "}".

Definition reply_with_prose : string :=
  "Here you go: " ++ "[" ++ issue_object ++ "]" ++ " Hope this helps!".

(** ** The text extractor *)

(** [s.endswith(suffix)] *)
Fixpoint ends_with (suffix s : string) : bool :=
  if String.eqb s suffix then true
  else match s with
       | EmptyString => false
       | String _ s' => ends_with suffix s'
       end.

(** [page.extract_text() or ""]: [None] is a page without text. *)
Definition page_text (page : option string) : string :=
  match page with
  | Some s => s
  | None => EmptyString
  end.

(** The loop [for page in reader.pages: text += ...]. *)
Definition pdf_text (pages : list (option string)) : string :=
  fold_left (fun text page => text ++ page_text page) pages EmptyString.

Section Extractor.

(** An uploaded file, with what the libraries read from it: its name, the
    text of each page of [PyPDF2.PdfReader(file).pages] in order, and
    [file.read().decode("utf-8")].  A reader that fails on the file is
    outside the model. *)
Variable file : Type.
Variable file_name : file -> string.
Variable page_texts : file -> list (option string).
Variable read_utf8 : file -> result string.

Definition extract_text (f : file) : result string :=
  if ends_with ".pdf" (file_name f) then Ok (pdf_text (page_texts f))
  else read_utf8 f.

End Extractor.

(** A page that has some text. *)
Definition has_text (page : option string) : bool :=
  match page with
  | Some (String _ _) => true
  | _ => false
  end.

(** ** The segment picker *)

(** [s.replace(c, "")] for a one-character [c]. *)
Fixpoint remove_char (c : ascii) (s : string) : string :=
  match s with
  | EmptyString => EmptyString
  | String d s' => if Ascii.eqb d c then remove_char c s' else String d (remove_char c s')
  end.

Definition digit_char (d : Z) : ascii := ascii_of_nat (48 + Z.to_nat d).

(** The decimal digits of [n >= 0] in front of [acc], most significant
    first; [fuel] bounds the number of digits. *)
Fixpoint digits_of (fuel : nat) (n : Z) (acc : string) : string :=
  match fuel with
  | O => acc
  | S fuel' =>
      let acc' := String (digit_char (n mod 10)) acc in
      if n <? 10 then acc' else digits_of fuel' (n / 10) acc'
  end.

(** [str(n)] for an [int]. *)
Definition str_of_int (n : Z) : string :=
  let digits (m : Z) := digits_of (S (Z.to_nat (Z.log2 m))) m EmptyString in
  if n <? 0 then String "-" (digits (- n)) else digits n.

(** [f"Segment {i+1}: {segments[i][:80]}..."] *)
Definition seg_label (i : nat) (segment : string) : string :=
  "Segment " ++ str_of_int (Z.of_nat i + 1) ++ ": "
  ++ PyStr.str_slice segment 0 80 ++ "...".

(** [seg_options]: the labels for [i] in [range(len(segments))]. *)
Fixpoint seg_options_from (i : nat) (segs : list string) : list string :=
  match segs with
  | [] => []
  | seg :: rest => seg_label i seg :: seg_options_from (S i) rest
  end.

Definition seg_options (segs : list string) : list string := seg_options_from 0 segs.

(** [int(choice.split()[1].replace(":", "")) - 1].  The choices are labels
    of [seg_options], whose number [str] wrote within the limit on digits. *)
Definition choice_index (choice : string) : result Z :=
  match nth_error (PyStr.split choice) 1 with
  | None => Raise IndexError
  | Some token => n <- int_of_str (remove_char ":" token) ;; Ok (n - 1)
  end.

(** ** Further vocabulary *)

(** The number of segments for [n] words and a positive step:
    [n / step], rounded up. *)
Definition segment_count (n : nat) (step : Z) : nat :=
  Z.to_nat ((Z.of_nat n + step - 1) / step).

(** The segment that starts at the word of index [i * (chunk_size - overlap)]. *)
Definition segment_at (words : list string) (chunk_size overlap : Z) (i : nat) : string :=
  PyStr.join " "
    (PyStr.slice words (Z.of_nat i * (chunk_size - overlap))
       (Z.of_nat i * (chunk_size - overlap) + chunk_size)).

Definition segments_of (words : list string) (chunk_size overlap : Z) : list string :=
  map (segment_at words chunk_size overlap)
    (seq 0 (segment_count (List.length words) (chunk_size - overlap))).

(** The pairs of a dict with the keys in lower case. *)
Definition lowered_pairs (d : dict pyval) : list (string * pyval) :=
  map (fun kv => (PyStr.lower (fst kv), snd kv)) d.

Definition is_dict (v : pyval) : bool :=
  match v with
  | PDict _ => true
  | _ => false
  end.

Definition is_list (v : pyval) : bool :=
  match v with
  | PList _ => true
  | _ => false
  end.

(** What one record adds to the tally, to the follow-ups and to the page. *)
Definition category_of (d : dict pyval) : pyval :=
  dict_get_default "category" (PStr "N/A") d.

Definition recommendation_of (d : dict pyval) : pyval :=
  dict_get_default "recommendation" (PStr "N/A") d.

Definition tallied_categories (items : list (dict pyval)) : list pyval :=
  flat_map (fun d =>
              if is_error_record d then []
              else if ne_str (category_of d) "N/A" then [category_of d] else [])
    items.

Definition follow_up_lines (items : list (dict pyval)) : list fstring :=
  flat_map (fun d =>
              if is_error_record d then []
              else if ne_str (recommendation_of d) "N/A"
                   then [[Lit "- "; Field (recommendation_of d)]] else [])
    items.

Definition widgets_of (items : list (dict pyval)) : list widget :=
  flat_map (fun d =>
              if is_error_record d
              then [ParseErrorBox; RawText (dict_get_default "raw_output" (PStr "") d)]
              else [IssueCard (dict_get_default "phrase" (PStr "N/A") d)
                      (category_of d)
                      (dict_get_default "explanation" (PStr "N/A") d)
                      (recommendation_of d)])
    items.

(** Every character of [s] is a decimal digit. *)
Fixpoint all_digits (s : string) : bool :=
  match s with
  | EmptyString => true
  | String c s' => is_digit c && all_digits s'
  end.


(** The widgets that show no issue and no summary. *)
Definition is_diagnostic (w : widget) : bool :=
  match w with
  | SegmentHeader _ | ParseErrorBox | RawText _ => true
  | _ => false
  end.

(** The issue cards and the error boxes of a page. *)
Definition is_card (w : widget) : bool :=
  match w with
  | IssueCard _ _ _ _ => true
  | _ => false
  end.

Definition is_error_box (w : widget) : bool :=
  match w with
  | ParseErrorBox => true
  | _ => false
  end.

(** The number of elements of [l] that satisfy [p]. *)
Definition count_of {A : Type} (p : A -> bool) (l : list A) : nat :=
  List.length (filter p l).

(** A text of 250 words, longer than 1000 characters. *)
Definition long_text : string := String.concat " " (repeat "risk" 250).

(** * Properties *)

(** ** Words and white space *)

Module PyStrFacts.
Import PyStr.

Lemma append_nil_r (s : string) : s ++ EmptyString = s.
Proof. induction s as [|c s IH]; simpl; [reflexivity | now rewrite IH]. Qed.

Lemma append_assoc (a b c : string) : (a ++ b) ++ c = a ++ (b ++ c).
Proof. induction a as [|x a IH]; simpl; [reflexivity | now rewrite IH]. Qed.

Lemma no_space_app (a b : string) :
  no_space (a ++ b) = no_space a && no_space b.
Proof.
  induction a as [|c a IH]; simpl; [reflexivity|].
  now rewrite IH, andb_assoc.
Qed.

Lemma app_char_not_empty (cur : string) (c : ascii) :
  cur ++ String c EmptyString <> EmptyString.
Proof. destruct cur; discriminate. Qed.

(** Reading a word extends the current run by it. *)
Lemma split_from_word (w : string) :
  forall cur s, no_space w = true ->
    split_from cur (w ++ s) = split_from (cur ++ w) s.
Proof.
  induction w as [|c w IH]; intros cur s Hw; simpl in *.
  - now rewrite append_nil_r.
  - apply andb_prop in Hw as [Hc Hw].
    apply negb_true_iff in Hc. rewrite Hc.
    rewrite IH by assumption.
    now rewrite append_assoc.
Qed.

Lemma split_from_words (s : string) :
  forall cur, no_space cur = true -> Forall is_word (split_from cur s).
Proof.
  induction s as [|c s IH]; intros cur Hcur; simpl.
  - destruct cur; constructor; [split; [discriminate | assumption] | constructor].
  - destruct (isspace c) eqn:Hc.
    + destruct cur.
      * now apply IH.
      * constructor; [split; [discriminate | assumption] | now apply IH].
    + apply IH. rewrite no_space_app, Hcur. simpl. now rewrite Hc.
Qed.

Lemma split_words (s : string) : Forall is_word (split s).
Proof. now apply split_from_words. Qed.

(** [split] undoes [" ".join] on words. *)
Lemma split_join (ws : list string) :
  Forall is_word ws -> split (join " " ws) = ws.
Proof.
  unfold split, join.
  induction ws as [|w ws IH]; intros Hws; [reflexivity|].
  inversion Hws as [|? ? [Hne Hw] Hrest]; subst.
  destruct ws as [|w2 ws].
  - simpl. rewrite <- (append_nil_r w) at 1.
    rewrite split_from_word by assumption. simpl.
    destruct w; [contradiction | reflexivity].
  - change (String.concat " " (w :: w2 :: ws))
      with (w ++ String " " (String.concat " " (w2 :: ws))).
    rewrite split_from_word by assumption.
    change (split_from (EmptyString ++ w)
              (String " " (String.concat " " (w2 :: ws))))
      with (match w with
            | EmptyString => split_from EmptyString (String.concat " " (w2 :: ws))
            | _ => w :: split_from EmptyString (String.concat " " (w2 :: ws))
            end).
    rewrite IH by assumption.
    destruct w; [contradiction | reflexivity].
Qed.

(** A slice between two indices that are not negative. *)
Lemma slice_nonneg {A : Type} (l : list A) (a b : Z) :
  0 <= a <= b ->
  slice l a b = firstn (Z.to_nat (b - a)) (skipn (Z.to_nat a) l).
Proof.
  intros Hab. unfold slice, clamp_index.
  destruct (Z.ltb_spec a 0); [lia|].
  destruct (Z.ltb_spec b 0); [lia|].
  set (n := Z.of_nat (List.length l)).
  destruct (Z_le_gt_dec n a) as [Hna | Hna].
  - rewrite !(skipn_all2 (n := Z.to_nat _)) by (subst n; lia).
    now rewrite !firstn_nil.
  - replace (Z.min a n) with a by lia.
    destruct (Z_le_gt_dec b n) as [Hbn | Hbn].
    + now replace (Z.min b n) with b by lia.
    + replace (Z.min b n) with n by lia.
      rewrite !firstn_all2; [reflexivity | |];
        rewrite length_skipn; subst n; lia.
Qed.

Lemma Forall_slice {A : Type} (P : A -> Prop) (l : list A) (a b : Z) :
  Forall P l -> Forall P (slice l a b).
Proof.
  intros H. unfold slice.
  set (len := Z.to_nat _). set (lo := Z.to_nat _).
  rewrite <- (firstn_skipn lo l) in H.
  apply Forall_app in H as [_ H].
  rewrite <- (firstn_skipn len (skipn lo l)) in H.
  now apply Forall_app in H as [H _].
Qed.

(** Dropping [ov] items of the first [cs], then the rest. *)
Lemma skipn_firstn_skipn {A : Type} (ov cs : nat) (l : list A) :
  (ov <= cs)%nat ->
  (skipn ov (firstn cs l) ++ skipn cs l)%list = skipn ov l.
Proof.
  intros Hle.
  rewrite <- (firstn_skipn cs l) at 3.
  rewrite skipn_app.
  destruct (Nat.le_gt_cases cs (List.length l)) as [Hlen | Hlen].
  - rewrite length_firstn, Nat.min_l by assumption.
    now replace (ov - cs)%nat with 0%nat by lia.
  - rewrite (skipn_all2 (n := cs)) by lia.
    now rewrite skipn_nil.
Qed.

End PyStrFacts.

(** ** The segmenter *)

Section Segmenter.
Import PyStr PyStrFacts.

Variable words : list string.
Variables chunk_size overlap : Z.

(** With a step that is not positive the index never moves forward, and the
    loop condition holds at every test. *)
Lemma chunk_loop_stuck :
  chunk_size <= overlap -> 0 < Z.of_nat (List.length words) ->
  forall fuel st, start st <= 0 ->
    chunk_loop fuel words chunk_size overlap st = None.
Proof.
  intros Hstep Hn.
  induction fuel as [|fuel IH]; intros st Hst; [reflexivity|].
  simpl. unfold chunk_iter.
  destruct (Z.ltb_spec (start st) (Z.of_nat (List.length words))); [|lia].
  apply IH. simpl. lia.
Qed.

(** More fuel does not change an outcome. *)
Lemma chunk_loop_mono :
  forall fuel st outcome,
    chunk_loop fuel words chunk_size overlap st = Some outcome ->
    forall fuel', (fuel <= fuel')%nat ->
      chunk_loop fuel' words chunk_size overlap st = Some outcome.
Proof.
  induction fuel as [|fuel IH]; intros st outcome Hrun fuel' Hle; [discriminate|].
  destruct fuel' as [|fuel']; [lia|].
  simpl in *.
  destruct (chunk_iter words chunk_size overlap st); [|assumption].
  apply (IH _ _ Hrun). lia.
Qed.

(** With a positive step the loop returns, and from [start >= 0] on it
    appends segments whose new words are the words from [start + overlap]. *)
Lemma chunk_loop_returns :
  Forall is_word words -> 0 <= overlap < chunk_size ->
  forall fuel st, 0 <= start st -> (Z.to_nat (Z.of_nat (List.length words) - start st) < fuel)%nat ->
    exists segs,
      chunk_loop fuel words chunk_size overlap st
        = Some (Ok (segments st ++ segs)%list)
      /\ new_words overlap segs = skipn (Z.to_nat (start st + overlap)) words.
Proof.
  intros Hwords Hcfg.
  induction fuel as [|fuel IH]; intros [s acc] Hs Hfuel; simpl in *; [lia|].
  unfold chunk_iter. simpl.
  destruct (Z.ltb_spec s (Z.of_nat (List.length words))) as [Hlt | Hge].
  - destruct (IH (mkChunk (s + (chunk_size - overlap))
                    (acc ++ [join " " (slice words s (s + chunk_size))])))
      as (segs & Hrun & Hnew); simpl; try lia.
    cbn [start segments] in Hrun, Hnew.
    exists (join " " (slice words s (s + chunk_size)) :: segs).
    split.
    + rewrite Hrun. now rewrite <- app_assoc.
    + unfold new_words in *. simpl. rewrite Hnew.
      rewrite split_join by now apply Forall_slice.
      rewrite slice_nonneg by lia.
      replace (Z.to_nat (s + (chunk_size - overlap) + overlap))
        with (Z.to_nat chunk_size + Z.to_nat s)%nat by lia.
      replace (Z.to_nat (s + overlap))
        with (Z.to_nat overlap + Z.to_nat s)%nat by lia.
      replace (s + chunk_size - s) with chunk_size by lia.
      rewrite <- (skipn_skipn (Z.to_nat chunk_size) (Z.to_nat s)).
      rewrite <- (skipn_skipn (Z.to_nat overlap) (Z.to_nat s)).
      apply skipn_firstn_skipn. lia.
  - exists []. split.
    + now rewrite app_nil_r.
    + unfold new_words. simpl. symmetry. apply skipn_all2. lia.
Qed.

End Segmenter.

(** C1, as the code has it: with [chunk_size <= overlap] and a text of at
    least one word, [chunk_text] neither returns nor raises; no test of the
    configuration exists, and every test of the loop condition succeeds. *)
Theorem chunk_text_invalid_config_never_returns
    (text : string) (chunk_size overlap : Z) :
  chunk_size <= overlap -> PyStr.split text <> [] ->
  forall fuel, chunk_text fuel text chunk_size overlap = None.
Proof.
  intros Hstep Hwords fuel. unfold chunk_text.
  apply chunk_loop_stuck; simpl; try lia.
  destruct (PyStr.split text); [contradiction | simpl; lia].
Qed.

Lemma chunk_text_invalid_config_never_returns_witness :
  50 <= 50 /\ PyStr.split "vendor risk report" <> []
  /\ chunk_text 1000 "vendor risk report" 50 50 = None.
Proof.
  split; [lia|]. split; [discriminate|].
  apply (chunk_text_invalid_config_never_returns "vendor risk report" 50 50).
  - lia.
  - discriminate.
Defined.

(** C1, as the claim has it, fails: with [chunk_size = 50] and
    [overlap = 50] the call yields no outcome, hence no configuration
    error, however long it runs. *)
Lemma chunk_text_50_50_no_config_error :
  ~ exists fuel outcome, chunk_text fuel "vendor risk report" 50 50 = Some outcome.
Proof.
  intros (fuel & outcome & H). unfold chunk_text in H.
  rewrite chunk_loop_stuck in H; [discriminate | lia | simpl; lia | simpl; lia].
Qed.

(** C3: for [0 <= overlap < chunk_size], [chunk_text] returns, and its
    segments, each but the first without its first [overlap] words, give
    back the words of the text in order. *)
Theorem chunk_text_reassembles (text : string) (chunk_size overlap : Z) :
  0 <= overlap < chunk_size ->
  exists segs,
    (forall fuel, (List.length (PyStr.split text) < fuel)%nat ->
       chunk_text fuel text chunk_size overlap = Some (Ok segs))
    /\ reassemble overlap segs = PyStr.split text.
Proof.
  intros Hcfg. unfold chunk_text.
  pose proof (PyStrFacts.split_words text) as Hwords.
  destruct (PyStr.split text) as [|w ws] eqn:Hsplit.
  - exists []. split; [|reflexivity].
    intros [|fuel] Hfuel; [simpl in Hfuel; lia | reflexivity].
  - set (words := w :: ws) in *.
    set (seg0 := PyStr.join " " (PyStr.slice words 0 (0 + chunk_size))).
    destruct (chunk_loop_returns words chunk_size overlap Hwords Hcfg
                (List.length words)
                (mkChunk (0 + (chunk_size - overlap)) [seg0]))
      as (segs & Hrun & Hnew);
      [cbn [start]; lia | cbn [start]; subst words; cbn [List.length]; lia |].
    cbn [start segments] in Hrun, Hnew.
    exists (seg0 :: segs). split.
    + intros [|fuel] Hfuel; [simpl in Hfuel; lia|].
      simpl. unfold chunk_iter. simpl start. simpl segments.
      destruct (Z.ltb_spec 0 (Z.of_nat (List.length words)));
        [|subst words; simpl in *; lia].
      fold seg0.
      apply (chunk_loop_mono _ _ _ _ _ _ Hrun). lia.
    + unfold reassemble. rewrite Hnew.
      subst seg0.
      rewrite PyStrFacts.split_join by now apply PyStrFacts.Forall_slice.
      rewrite PyStrFacts.slice_nonneg by lia.
      replace (Z.to_nat (0 + chunk_size - 0)) with (Z.to_nat chunk_size) by lia.
      replace (Z.to_nat (0 + (chunk_size - overlap) + overlap))
        with (Z.to_nat chunk_size) by lia.
      simpl skipn at 1.
      apply firstn_skipn.
Qed.

Lemma chunk_text_reassembles_witness :
  0 <= 3 < 5
  /\ exists segs,
       (forall fuel, (List.length (PyStr.split "a b c d e f g h i j") < fuel)%nat ->
          chunk_text fuel "a b c d e f g h i j" 5 3 = Some (Ok segs))
       /\ reassemble 3 segs = PyStr.split "a b c d e f g h i j".
Proof.
  split; [lia|].
  apply (chunk_text_reassembles "a b c d e f g h i j" 5 3). lia.
Defined.

(** Five words per segment, three of them shared with the next one. *)
Example chunk_text_overlap_example :
  chunk_text 10 "a b c d e f g h i j" 5 3
  = Some (Ok ["a b c d e"; "c d e f g"; "e f g h i"; "g h i j"; "i j"]).
Proof. reflexivity. Qed.

(** The call of the main script on a text of less than 300 words: one
    segment, the words joined by single spaces. *)
Example chunk_text_default_example :
  chunk_text_default 2 "  vendor   risk report " = Some (Ok ["vendor risk report"]).
Proof. reflexivity. Qed.

(** ** Dicts *)

Section DictFacts.
Context {V : Type}.
Implicit Types (d acc : dict V) (k : string) (v : V).

Lemma dict_get_set_eq k v d : dict_get k (dict_set k v d) = Some v.
Proof.
  induction d as [|[k' v'] d IH]; simpl.
  - now rewrite String.eqb_refl.
  - destruct (String.eqb k' k) eqn:E; simpl; rewrite E; [reflexivity | exact IH].
Qed.

Lemma dict_get_set_ne k k' v d :
  k <> k' -> dict_get k' (dict_set k v d) = dict_get k' d.
Proof.
  intros Hne.
  induction d as [|[k0 v0] d IH]; simpl.
  - now apply String.eqb_neq in Hne as ->.
  - destruct (String.eqb_spec k0 k) as [-> | Hk]; simpl.
    + now apply String.eqb_neq in Hne as ->.
    + now rewrite IH.
Qed.

Lemma dict_get_app k d1 d2 :
  dict_get k (d1 ++ d2)%list
  = match dict_get k d1 with Some v => Some v | None => dict_get k d2 end.
Proof.
  induction d1 as [|[k' v'] d1 IH]; simpl; [reflexivity|].
  now destruct (String.eqb k' k).
Qed.

Lemma dict_get_none_keys k d : dict_get k d = None <-> ~ In k (keys d).
Proof.
  induction d as [|[k' v'] d IH]; simpl; [tauto|].
  destruct (String.eqb_spec k' k) as [-> | Hne].
  - split; [discriminate | tauto].
  - rewrite IH. tauto.
Qed.

Lemma dict_get_del k k' d :
  dict_get k' (dict_del k d) = if String.eqb k k' then None else dict_get k' d.
Proof.
  induction d as [|[k0 v0] d IH]; simpl.
  - now destruct (String.eqb k k').
  - destruct (String.eqb_spec k0 k) as [-> | Hk]; simpl.
    + rewrite IH. now destruct (String.eqb k k').
    + rewrite IH.
      destruct (String.eqb_spec k k') as [<- | Hk'].
      * now apply String.eqb_neq in Hk as ->.
      * reflexivity.
Qed.

(** Setting a new key appends it; setting an old one keeps the keys. *)
Lemma dict_set_new k v d : ~ In k (keys d) -> dict_set k v d = (d ++ [(k, v)])%list.
Proof.
  induction d as [|[k' v'] d IH]; simpl; intros Hk; [reflexivity|].
  destruct (String.eqb_spec k' k) as [-> | Hne]; [tauto|].
  rewrite IH; tauto.
Qed.

Lemma keys_dict_set_old k v d : In k (keys d) -> keys (dict_set k v d) = keys d.
Proof.
  induction d as [|[k' v'] d IH]; simpl; intros Hk; [contradiction|].
  destruct (String.eqb_spec k' k) as [-> | Hne]; simpl; [reflexivity|].
  f_equal. apply IH. destruct Hk; [contradiction | assumption].
Qed.

Lemma keys_dict_set k v d :
  keys (dict_set k v d) = keys d \/ keys (dict_set k v d) = (keys d ++ [k])%list.
Proof.
  destruct (in_dec string_dec k (keys d)) as [Hin | Hout].
  - left. now apply keys_dict_set_old.
  - right. rewrite dict_set_new by assumption.
    unfold keys. now rewrite map_app.
Qed.

Lemma NoDup_dict_set k v d : NoDup (keys d) -> NoDup (keys (dict_set k v d)).
Proof.
  intros Hd.
  destruct (in_dec string_dec k (keys d)) as [Hin | Hout].
  - now rewrite keys_dict_set_old.
  - rewrite dict_set_new by assumption.
    unfold keys in *. rewrite map_app. simpl.
    apply NoDup_app; repeat split; try assumption.
    + repeat constructor. intros [].
    + intros x Hx [<- | []]. contradiction.
Qed.

Lemma dict_update_cons k v (pairs : list (string * V)) acc :
  dict_update ((k, v) :: pairs) acc = dict_update pairs (dict_set k v acc).
Proof. reflexivity. Qed.

Lemma NoDup_dict_update pairs : forall acc, NoDup (keys acc) -> NoDup (keys (dict_update pairs acc)).
Proof.
  induction pairs as [|[k v] pairs IH]; intros acc Hacc; simpl; [assumption|].
  apply IH. now apply NoDup_dict_set.
Qed.

Lemma keys_dict_update pairs : forall acc k,
  In k (keys (dict_update pairs acc)) -> In k (keys acc) \/ In k (map fst pairs).
Proof.
  induction pairs as [|[k0 v0] pairs IH]; intros acc k Hk; simpl in *; [tauto|].
  apply IH in Hk as [Hk | Hk]; [|tauto].
  destruct (keys_dict_set k0 v0 acc) as [E | E]; rewrite E in Hk; [tauto|].
  apply in_app_or in Hk as [Hk | [<- | []]]; tauto.
Qed.

Lemma dict_update_distinct pairs : forall acc,
  NoDup (keys (acc ++ pairs)%list) -> dict_update pairs acc = (acc ++ pairs)%list.
Proof.
  induction pairs as [|[k v] pairs IH]; intros acc Hnd; simpl.
  - now rewrite app_nil_r.
  - replace (acc ++ (k, v) :: pairs)%list with ((acc ++ [(k, v)]) ++ pairs)%list in *
      by now rewrite <- app_assoc.
    rewrite dict_set_new.
    + now apply IH.
    + unfold keys in Hnd. rewrite !map_app in Hnd. simpl in Hnd.
      rewrite <- app_assoc in Hnd. simpl in Hnd.
      apply NoDup_remove_2 in Hnd.
      intros Hin. apply Hnd. apply in_or_app. now left.
Qed.

(** The last pair of a key decides its value. *)
Lemma dict_get_dict_update pairs : forall acc k,
  dict_get k (dict_update pairs acc)
  = match dict_get k (rev pairs) with Some v => Some v | None => dict_get k acc end.
Proof.
  induction pairs as [|[k0 v0] pairs IH]; intros acc k; simpl; [reflexivity|].
  rewrite IH, dict_get_app. simpl.
  destruct (dict_get k (rev pairs)); [reflexivity|].
  destruct (String.eqb_spec k0 k) as [-> | Hne].
  - apply dict_get_set_eq.
  - now apply dict_get_set_ne.
Qed.

Lemma NoDup_dict_of_pairs (pairs : list (string * V)) :
  NoDup (keys (dict_of_pairs pairs)).
Proof. apply NoDup_dict_update. constructor. Qed.

Lemma keys_dict_of_pairs (pairs : list (string * V)) k :
  In k (keys (dict_of_pairs pairs)) -> In k (map fst pairs).
Proof. intros H. apply keys_dict_update in H as [[] | H]. exact H. Qed.

Lemma dict_of_pairs_distinct d : NoDup (keys d) -> dict_of_pairs d = d.
Proof. intros H. now apply (dict_update_distinct d []). Qed.

Lemma dict_get_dict_of_pairs (pairs : list (string * V)) k :
  dict_get k (dict_of_pairs pairs) = dict_get k (rev pairs).
Proof.
  unfold dict_of_pairs. rewrite dict_get_dict_update.
  now destruct (dict_get k (rev pairs)).
Qed.

End DictFacts.

(** ** The key normaliser *)

(** A key whose lower-case form is a field name becomes that name. *)
Lemma normalize_key_canonical (k : string) :
  In (PyStr.lower k) canonical_fields -> normalize_key k = PyStr.lower k.
Proof.
  unfold normalize_key, canonical_fields. simpl.
  intros [H | [H | [H | [H | [H | []]]]]]; rewrite <- H; reflexivity.
Qed.

(** Any other key is kept as it is written. *)
Lemma normalize_key_other (k : string) :
  ~ In (PyStr.lower k) canonical_fields -> normalize_key k = k.
Proof.
  unfold normalize_key, dict_get_default, canonical_fields, mapping.
  cbn [dict_get In]. intros H.
  repeat match goal with
         | |- context [String.eqb ?a ?b] =>
             destruct (String.eqb_spec a b); [exfalso; apply H; tauto|]
         end.
  reflexivity.
Qed.

Lemma normalize_key_idempotent (k : string) :
  normalize_key (normalize_key k) = normalize_key k.
Proof.
  destruct (in_dec string_dec (PyStr.lower k) canonical_fields) as [Hin | Hout].
  - rewrite (normalize_key_canonical k Hin).
    simpl in Hin.
    destruct Hin as [H | [H | [H | [H | [H | []]]]]]; rewrite <- H; reflexivity.
  - now rewrite !(normalize_key_other k Hout).
Qed.

(** On a dict whose keys are already normal, the pairs are the dict. *)
Lemma normalized_pairs_fixed (d : dict pyval) :
  (forall k, In k (keys d) -> normalize_key k = k) -> normalized_pairs d = d.
Proof.
  unfold normalized_pairs.
  induction d as [|[k v] d IH]; intros Hfix; simpl; [reflexivity|].
  rewrite (Hfix k) by (simpl; tauto).
  f_equal. apply IH. intros k' Hk'. apply Hfix. simpl. tauto.
Qed.

Lemma normalize_items_idempotent (d : dict pyval) :
  normalize_items (normalize_items d) = normalize_items d.
Proof.
  unfold normalize_items at 1. fold (normalized_pairs (normalize_items d)).
  rewrite normalized_pairs_fixed.
  - apply dict_of_pairs_distinct. apply NoDup_dict_of_pairs.
  - intros k Hk. apply keys_dict_of_pairs in Hk.
    rewrite map_map in Hk. simpl in Hk.
    apply in_map_iff in Hk as ([k0 v0] & <- & _). simpl.
    apply normalize_key_idempotent.
Qed.

(** C8: on every dict [normalize_keys] returns a dict on which it changes
    nothing more.  A key whose lower-case form is one of the five field
    names becomes that name, any other key stays as written, and the value
    under a key of the result is that of the last pair given that key. *)
Theorem normalize_keys_idempotent (d : dict pyval) :
  exists d',
    normalize_keys (PDict d) = Ok (PDict d')
    /\ normalize_keys (PDict d') = Ok (PDict d')
    /\ (forall k, In (PyStr.lower k) canonical_fields ->
          normalize_key k = PyStr.lower k)
    /\ (forall k, ~ In (PyStr.lower k) canonical_fields -> normalize_key k = k)
    /\ (forall k, dict_get k d' = dict_get k (rev (normalized_pairs d))).
Proof.
  exists (normalize_items d). simpl.
  rewrite normalize_items_idempotent.
  repeat split.
  - exact normalize_key_canonical.
  - exact normalize_key_other.
  - intros k. apply dict_get_dict_of_pairs.
Qed.

(** Keys in mixed case collide on the field name, and an unknown key is
    kept. *)
Example normalize_keys_example :
  normalize_keys (PDict [("Phrase", PInt 1); ("Vendor", PInt 2);
                         ("phrase", PInt 3); ("BIAS_SCORE", PStr "70")])
  = Ok (PDict [("phrase", PInt 3); ("Vendor", PInt 2); ("bias_score", PStr "70")]).
Proof. reflexivity. Qed.

(** ** Searching and slicing a reply *)

Module FindFacts.
Import PyStr.

Lemma find_from_absent (c : ascii) (s : string) :
  forall i, occurs c s = false -> find_from i c s = -1.
Proof.
  induction s as [|d s IH]; intros i H; simpl in *; [reflexivity|].
  apply orb_false_elim in H as [-> H]. now apply IH.
Qed.

Lemma rfind_from_absent (c : ascii) (s : string) :
  forall i, occurs c s = false -> rfind_from i c s = -1.
Proof.
  induction s as [|d s IH]; intros i H; simpl in *; [reflexivity|].
  apply orb_false_elim in H as [-> H].
  now rewrite IH.
Qed.

(** The first occurrence: nothing before it is [c]. *)
Lemma find_from_first (c : ascii) (pre rest : string) :
  forall i, occurs c pre = false ->
    find_from i c (pre ++ String c rest) = i + Z.of_nat (String.length pre).
Proof.
  induction pre as [|d pre IH]; intros i H; simpl in *.
  - rewrite Ascii.eqb_refl. lia.
  - apply orb_false_elim in H as [-> H].
    rewrite IH by assumption. lia.
Qed.

(** The last occurrence: nothing after it is [c]. *)
Lemma rfind_from_last (c : ascii) (s post : string) :
  forall i, 0 <= i -> occurs c post = false ->
    rfind_from i c (s ++ String c post) = i + Z.of_nat (String.length s).
Proof.
  induction s as [|d s IH]; intros i Hi H.
  - simpl. rewrite rfind_from_absent by assumption.
    simpl. rewrite Ascii.eqb_refl. lia.
  - cbn [append rfind_from String.length].
    rewrite IH by (assumption || lia).
    destruct (Z.leb_spec 0 (i + 1 + Z.of_nat (String.length s))); lia.
Qed.

(** [rfind] is an index or -1, so [rfind + 1] is never -1. *)
Lemma rfind_from_lower_bound (c : ascii) (s : string) :
  forall i, 0 <= i -> -1 <= rfind_from i c s.
Proof.
  induction s as [|d s IH]; intros i Hi; simpl; [lia|].
  specialize (IH (i + 1) ltac:(lia)).
  destruct (Z.leb_spec 0 (rfind_from (i + 1) c s)); [lia|].
  destruct (Ascii.eqb d c); lia.
Qed.

Lemma rfind_lower_bound (c : ascii) (s : string) : -1 <= rfind c s.
Proof. apply rfind_from_lower_bound. lia. Qed.

Lemma list_ascii_of_string_app (a b : string) :
  list_ascii_of_string (a ++ b)
  = (list_ascii_of_string a ++ list_ascii_of_string b)%list.
Proof. induction a as [|c a IH]; simpl; [reflexivity | now rewrite IH]. Qed.

Lemma length_list_ascii_of_string (s : string) :
  List.length (list_ascii_of_string s) = String.length s.
Proof. induction s as [|c s IH]; simpl; [reflexivity | now rewrite IH]. Qed.

Lemma string_length_app (a b : string) :
  String.length (a ++ b) = (String.length a + String.length b)%nat.
Proof. induction a as [|c a IH]; simpl; [reflexivity | now rewrite IH]. Qed.

(** The slice that starts after [pre] and has the length of [mid]. *)
Lemma str_slice_middle (pre mid post : string) :
  str_slice (pre ++ mid ++ post)
    (Z.of_nat (String.length pre))
    (Z.of_nat (String.length pre) + Z.of_nat (String.length mid))
  = mid.
Proof.
  unfold str_slice.
  rewrite PyStrFacts.slice_nonneg by lia.
  rewrite !list_ascii_of_string_app.
  rewrite Nat2Z.id.
  replace (Z.to_nat (_ + _ - _)) with (String.length mid) by lia.
  rewrite skipn_app, length_list_ascii_of_string, Nat.sub_diag.
  rewrite skipn_all2 by (rewrite length_list_ascii_of_string; lia).
  simpl.
  rewrite firstn_app, length_list_ascii_of_string, Nat.sub_diag.
  rewrite firstn_all2 by (rewrite length_list_ascii_of_string; lia).
  simpl. rewrite app_nil_r.
  apply string_of_list_ascii_of_string.
Qed.

(** What [analyze_bias] cuts out of a reply [pre ++ "[" ++ body ++ "]" ++ post]
    that has no bracket before or after the pair. *)
Lemma bracket_slice (pre body post : string) :
  occurs "[" pre = false -> occurs "]" post = false ->
  let raw := pre ++ String "[" (body ++ String "]" EmptyString) ++ post in
  find "[" raw <> -1
  /\ str_slice raw (find "[" raw) (rfind "]" raw + 1)
     = String "[" (body ++ String "]" EmptyString).
Proof.
  intros Hpre Hpost raw.
  assert (Hfind : find "[" raw = Z.of_nat (String.length pre)).
  { unfold find, raw. simpl append.
    now rewrite find_from_first. }
  assert (Hrfind : rfind "]" raw
                   = Z.of_nat (String.length pre) + Z.of_nat (String.length body) + 1).
  { unfold rfind, raw.
    replace (pre ++ String "[" (body ++ String "]" EmptyString) ++ post)
      with ((pre ++ String "[" body) ++ String "]" post).
    - rewrite rfind_from_last by (assumption || lia).
      rewrite string_length_app. simpl. lia.
    - rewrite PyStrFacts.append_assoc. simpl.
      now rewrite PyStrFacts.append_assoc. }
  split; [rewrite Hfind; lia|].
  rewrite Hfind, Hrfind.
  replace (Z.of_nat (String.length pre) + Z.of_nat (String.length body) + 1 + 1)
    with (Z.of_nat (String.length pre)
          + Z.of_nat (String.length (String "[" (body ++ String "]" EmptyString)))).
  - apply str_slice_middle.
  - simpl String.length. rewrite string_length_app. simpl. lia.
Qed.

End FindFacts.

(** ** Stripping and upper case *)

Module StripFacts.
Import PyStr.

Lemma lstrip_split (s : string) :
  exists before, s = before ++ lstrip s /\ all_space before = true.
Proof.
  induction s as [|c s (before & Hs & Hsp)]; simpl.
  - now exists EmptyString.
  - destruct (isspace c) eqn:Hc.
    + exists (String c before). simpl. rewrite Hc. split; [now f_equal | assumption].
    + now exists EmptyString.
Qed.

Lemma rstrip_split (s : string) :
  exists after, s = rstrip s ++ after /\ all_space after = true.
Proof.
  induction s as [|c s (after & Hs & Hsp)]; simpl.
  - now exists EmptyString.
  - destruct (rstrip s) eqn:Hr.
    + destruct (isspace c) eqn:Hc.
      * exists (String c s). simpl in *. subst s. now rewrite Hc.
      * exists after. simpl in *. split; [now f_equal | assumption].
    + exists after. simpl in *. split; [now f_equal | assumption].
Qed.

Lemma lstrip_spaces (before s : string) :
  all_space before = true -> lstrip (before ++ s) = lstrip s.
Proof.
  induction before as [|c before IH]; simpl; [reflexivity|].
  intros H. apply andb_prop in H as [-> H]. now apply IH.
Qed.

Lemma rstrip_spaces (after : string) : all_space after = true -> rstrip after = EmptyString.
Proof.
  induction after as [|c after IH]; simpl; [reflexivity|].
  intros H. apply andb_prop in H as [-> H]. now rewrite IH.
Qed.

Lemma upper_char_N (x : ascii) :
  upper_char x = "N"%char <-> (x = "n" \/ x = "N")%char.
Proof.
  split.
  - destruct x as [[] [] [] [] [] [] [] []]; vm_compute; intros H;
      solve [discriminate H | now left | now right].
  - now intros [-> | ->].
Qed.

Lemma upper_char_O (y : ascii) :
  upper_char y = "O"%char <-> (y = "o" \/ y = "O")%char.
Proof.
  split.
  - destruct y as [[] [] [] [] [] [] [] []]; vm_compute; intros H;
      solve [discriminate H | now left | now right].
  - now intros [-> | ->].
Qed.

(** The replies that strip and capitalise to [NO]. *)
Lemma upper_strip_NO (response : string) :
  upper (strip response) = "NO" <-> says_no response.
Proof.
  unfold says_no, strip. split.
  - intros H.
    destruct (lstrip_split response) as (before & Hb & Hbs).
    destruct (rstrip_split (lstrip response)) as (after & Ha & Has).
    destruct (rstrip (lstrip response)) as [|x [|y [|z t]]]; try discriminate H.
    simpl in H. injection H as Hy Hx.
    exists before, after, x, y.
    rewrite Hb at 1. rewrite Ha. simpl.
    repeat split; try assumption.
    + now apply upper_char_N.
    + now apply upper_char_O.
  - intros (before & after & x & y & -> & Hb & Ha & Hx & Hy).
    rewrite lstrip_spaces by assumption.
    assert (Hnx : isspace x = false) by (destruct Hx as [-> | ->]; reflexivity).
    assert (Hny : isspace y = false) by (destruct Hy as [-> | ->]; reflexivity).
    assert (Hr : rstrip (String x (String y after))
                 = String x (String y EmptyString)).
    { cbn [rstrip]. rewrite rstrip_spaces by assumption. now rewrite Hny. }
    cbn [lstrip]. rewrite Hnx, Hr.
    apply upper_char_N in Hx. apply upper_char_O in Hy.
    unfold upper. cbn [map_chars]. now rewrite Hx, Hy.
Qed.

End StripFacts.

(** ** The parsing stage and the relevance gate *)

Section DetectorFacts.

Variable json_loads : string -> result pyval.
Variable chat : string -> string.

Lemma mapM_normalize_dicts (ds : list (dict pyval)) :
  mapM normalize_keys (map PDict ds)
  = Ok (map (fun d => PDict (normalize_items d)) ds).
Proof.
  induction ds as [|d ds IH]; simpl; [reflexivity|].
  now rewrite IH.
Qed.

(** An item that is not a dict has no [items] method: the comprehension
    raises at the first such item. *)
Lemma mapM_normalize_non_dict (ds : list (dict pyval)) (v : pyval) (rest : list pyval) :
  (forall d, v <> PDict d) ->
  mapM normalize_keys (map PDict ds ++ v :: rest)%list = Raise AttributeError.
Proof.
  intros Hv.
  induction ds as [|d ds IH]; simpl.
  - destruct v; try reflexivity. now destruct (Hv d).
  - now rewrite IH.
Qed.

(** A reply that does not decode and has no opening bracket. *)
Lemma parse_response_no_bracket (raw_output : string) (e : exn) :
  json_loads raw_output = Raise e ->
  occurs "[" raw_output = false ->
  parse_response json_loads raw_output
  = Ok (error_record "No JSON detected" raw_output).
Proof.
  intros Hloads Hno. unfold parse_response.
  rewrite Hloads.
  unfold PyStr.find. rewrite FindFacts.find_from_absent by assumption.
  reflexivity.
Qed.

(** A reply that does not decode, and whose bracketed part does. *)
Lemma parse_response_bracketed (pre body post : string) (e : exn) (parsed : pyval) :
  let arr := String "[" (body ++ String "]" EmptyString) in
  occurs "[" pre = false -> occurs "]" post = false ->
  json_loads (pre ++ arr ++ post) = Raise e ->
  json_loads arr = Ok parsed ->
  parse_response json_loads (pre ++ arr ++ post) = normalize_parsed parsed.
Proof.
  intros arr Hpre Hpost Hraw Harr. unfold parse_response.
  rewrite Hraw.
  destruct (FindFacts.bracket_slice pre body post Hpre Hpost) as [Hfind Hslice].
  fold arr in Hfind, Hslice. cbv zeta in Hfind, Hslice.
  rewrite Hslice, Harr.
  apply Z.eqb_neq in Hfind. rewrite Hfind.
  destruct (Z.eqb_spec (PyStr.rfind "]" (pre ++ arr ++ post) + 1) (-1)) as [E|E];
    [|reflexivity].
  pose proof (FindFacts.rfind_lower_bound "]" (pre ++ arr ++ post)). lia.
Qed.

(** A decoded list with an item that is not a dict: the exception is raised
    after the [try], and leaves [analyze_bias]. *)
Lemma parse_response_non_dict_item
    (raw_output : string) (ds : list (dict pyval)) (v : pyval) (rest : list pyval) :
  json_loads raw_output = Ok (PList (map PDict ds ++ v :: rest)) ->
  (forall d, v <> PDict d) ->
  parse_response json_loads raw_output = Raise AttributeError.
Proof.
  intros Hloads Hv. unfold parse_response. rewrite Hloads.
  unfold normalize_parsed. now rewrite mapM_normalize_non_dict.
Qed.

(** C4: a reply that has no opening bracket and does not decode gives one
    error record that carries the reply as [analyze_bias] read it, that is
    without its surrounding white space; the loop shows the diagnostic,
    leaves the three accumulators as they are and goes on with the rest of
    the selection.  A closing bracket in the reply changes nothing. *)
Theorem analyze_bias_no_json_detected
    (segs : list string) (idx : nat) (rest : list nat) (st : report)
    (segment raw_output : string) (e : exn) :
  nth_error segs idx = Some segment ->
  raw_output = PyStr.strip (chat (bias_prompt segment)) ->
  occurs "[" raw_output = false ->
  json_loads raw_output = Raise e ->
  analyze_bias json_loads chat segment
  = Ok (PList [PDict [("error", PStr "No JSON detected");
                      ("raw_output", PStr raw_output)]])
  /\ analysis_loop json_loads chat segs (idx :: rest) st
     = analysis_loop json_loads chat segs rest
         (show [ParseErrorBox; RawText (PStr raw_output)]
            (show [SegmentHeader idx] st)).
Proof.
  intros Hseg Hraw Hno Hloads.
  assert (Hres : analyze_bias json_loads chat segment
                 = Ok (error_record "No JSON detected" raw_output)).
  { unfold analyze_bias. rewrite <- Hraw.
    now apply parse_response_no_bracket with (e := e). }
  split; [exact Hres|].
  cbn [analysis_loop]. rewrite Hseg. cbn [bind].
  rewrite Hres. reflexivity.
Qed.

(** X29: the fallback on the brackets.  When the reply does not decode and
    the text from its first opening to its last closing bracket decodes to
    an array of objects, [analyze_bias] returns these objects with their
    keys normalised. *)
Theorem analyze_bias_bracket_fallback
    (segment pre body post : string) (e : exn) (ds : list (dict pyval)) :
  let arr := String "[" (body ++ String "]" EmptyString) in
  PyStr.strip (chat (bias_prompt segment)) = pre ++ arr ++ post ->
  occurs "[" pre = false -> occurs "]" post = false ->
  json_loads (pre ++ arr ++ post) = Raise e ->
  json_loads arr = Ok (PList (map PDict ds)) ->
  analyze_bias json_loads chat segment
  = Ok (PList (map (fun d => PDict (normalize_items d)) ds)).
Proof.
  intros arr Hraw Hpre Hpost Hfail Harr. subst arr.
  unfold analyze_bias. rewrite Hraw.
  rewrite (parse_response_bracketed pre body post e _ Hpre Hpost Hfail Harr).
  unfold normalize_parsed. now rewrite mapM_normalize_dicts.
Qed.

(** C6: the gate reports the document as not relevant exactly when the
    reply, without its surrounding white space and in upper case, is [NO],
    that is when it reads [no] in any case between optional white space;
    any other reply lets the analysis go on. *)
Theorem relevance_gate_blocks_iff_no (raw_text : string) :
  let response := chat (relevance_prompt raw_text) in
  (main_gate chat raw_text = NotRelevant
   <-> PyStr.upper (PyStr.strip response) = "NO")
  /\ (main_gate chat raw_text = NotRelevant <-> says_no response)
  /\ (PyStr.upper (PyStr.strip response) <> "NO"
      -> main_gate chat raw_text = Relevant).
Proof.
  intros response.
  rewrite <- (StripFacts.upper_strip_NO response).
  unfold main_gate, check_relevance. fold response.
  destruct (String.eqb_spec (PyStr.upper (PyStr.strip response)) "NO") as [E | E].
  - repeat split; tauto.
  - repeat split; try discriminate; try contradiction.
Qed.

End DetectorFacts.

(** *** The parsing stage on concrete replies *)

Lemma analyze_bias_no_json_detected_witness :
  Json.loads "Sorry, I can't help." = Raise JSONDecodeError
  /\ analyze_bias Json.loads (fun _ => "Sorry, I can't help.") "We never had a breach."
     = Ok (PList [PDict [("error", PStr "No JSON detected");
                         ("raw_output", PStr "Sorry, I can't help.")]])
  /\ analysis_loop Json.loads (fun _ => "Sorry, I can't help.")
       ["We never had a breach."; "All staff are trained."] [0%nat; 1%nat] empty_report
     = analysis_loop Json.loads (fun _ => "Sorry, I can't help.")
         ["We never had a breach."; "All staff are trained."] [1%nat]
         (show [ParseErrorBox; RawText (PStr "Sorry, I can't help.")]
            (show [SegmentHeader 0] empty_report)).
Proof.
  split; [reflexivity|].
  apply (analyze_bias_no_json_detected Json.loads (fun _ => "Sorry, I can't help.")
           ["We never had a breach."; "All staff are trained."] 0 [1%nat] empty_report
           "We never had a breach." "Sorry, I can't help." JSONDecodeError);
    reflexivity.
Defined.

Lemma analyze_bias_bracket_fallback_witness :
  Json.loads reply_with_prose = Raise JSONDecodeError
  /\ analyze_bias Json.loads (fun _ => reply_with_prose) "We never had a breach."
     = Ok (PList [PDict [("phrase", PStr "a"); ("category", PStr "Deflection");
                         ("bias_score", PInt 40); ("explanation", PStr "e");
                         ("recommendation", PStr "r")]]).
Proof.
  split; [reflexivity|].
  apply (analyze_bias_bracket_fallback Json.loads (fun _ => reply_with_prose)
           "We never had a breach." "Here you go: " issue_object " Hope this helps!"
           JSONDecodeError
           [[("phrase", PStr "a"); ("category", PStr "Deflection");
             ("bias_score", PInt 40); ("explanation", PStr "e");
             ("recommendation", PStr "r")]]);
    reflexivity.
Defined.

(** C5: the fallback on the brackets is to return the decoded list of a
    reply that holds a valid array in prose.  It does not on an array with
    an element that is no object: the reply below does not decode, the text
    from its first opening to its last closing bracket is the valid array
    of the number 1, and [normalize_keys], called on the number outside
    both [try] blocks, raises [AttributeError] where the list was to be
    returned. *)
Theorem bracket_fallback_array_of_numbers_raises :
  Json.loads "Result: [1] done" = Raise JSONDecodeError
  /\ PyStr.str_slice "Result: [1] done"
       (PyStr.find "[" "Result: [1] done") (PyStr.rfind "]" "Result: [1] done" + 1)
     = "[1]"
  /\ Json.loads "[1]" = Ok (PList [PInt 1])
  /\ analyze_bias Json.loads (fun _ => "Result: [1] done") "We never had a breach."
     = Raise AttributeError.
Proof. repeat split. Qed.

(** C2: the reply [[1]] decodes, to a list whose item is not a dict;
    [normalize_keys] raises on it outside of both [try] blocks, and the
    exception leaves [analyze_bias] and the loop of the main script. *)
Theorem analyze_bias_raises_on_array_of_numbers :
  Json.loads "[1]" = Ok (PList [PInt 1])
  /\ parse_response Json.loads "[1]" = Raise AttributeError
  /\ (forall segment, analyze_bias Json.loads (fun _ => "[1]") segment
                      = Raise AttributeError)
  /\ run_analysis Json.loads (fun _ => "[1]") ["We never had a breach."] [0%nat]
     = Raise AttributeError.
Proof. repeat split. Qed.

Lemma relevance_gate_examples :
  main_gate (fun _ => "  no
") "Once upon a time" = NotRelevant
  /\ main_gate (fun _ => "No.") "Once upon a time" = Relevant
  /\ main_gate (fun _ => "") "Once upon a time" = Relevant.
Proof. repeat split. Qed.

(** ** The aggregator *)

(** The body of the loop on a record without an [error] key. *)
Lemma process_item_issue (d : dict pyval) (st : report) :
  dict_get "error" d = None ->
  process_item (PDict d) st
  = Ok (mkReport
          (match py_int (score_of d) with
           | Ok n => all_scores st ++ [n]
           | Raise _ => all_scores st
           end)
          (if ne_str (dict_get_default "category" (PStr "N/A") d) "N/A"
           then all_categories st ++ [dict_get_default "category" (PStr "N/A") d]
           else all_categories st)
          (if ne_str (dict_get_default "recommendation" (PStr "N/A") d) "N/A"
           then followups st
                ++ [[Lit "- "; Field (dict_get_default "recommendation" (PStr "N/A") d)]]
           else followups st)
          (page st
           ++ [IssueCard (dict_get_default "phrase" (PStr "N/A") d)
                 (dict_get_default "category" (PStr "N/A") d)
                 (dict_get_default "explanation" (PStr "N/A") d)
                 (dict_get_default "recommendation" (PStr "N/A") d)]))%list.
Proof.
  intros Herr. unfold process_item, py_in, py_get. cbn [bind].
  rewrite Herr. reflexivity.
Qed.

(** The body of the loop on a record with an [error] key. *)
Lemma process_item_error (d : dict pyval) (st : report) :
  is_error_record d = true ->
  process_item (PDict d) st
  = Ok (show [ParseErrorBox; RawText (dict_get_default "raw_output" (PStr "") d)] st).
Proof.
  unfold is_error_record, process_item, py_in, py_get. cbn [bind].
  destruct (dict_get "error" d); [reflexivity | discriminate].
Qed.

(** On dicts the loop does not raise, and it appends to the score list the
    scores that convert. *)
Lemma process_items_scores (items : list (dict pyval)) :
  forall st, exists st',
    process_items (map PDict items) st = Ok st'
    /\ all_scores st' = (all_scores st ++ convertible_scores items)%list.
Proof.
  induction items as [|d items IH]; intros st; simpl.
  - exists st. now rewrite app_nil_r.
  - unfold is_error_record.
    destruct (dict_get "error" d) eqn:Herr.
    + rewrite process_item_error by (unfold is_error_record; now rewrite Herr).
      cbn [bind].
      destruct (IH (show [ParseErrorBox;
                          RawText (dict_get_default "raw_output" (PStr "") d)] st))
        as (st' & Hrun & Hscores).
      exists st'. split; [exact Hrun | exact Hscores].
    + rewrite process_item_issue by assumption. cbn [bind].
      match goal with
      | |- context [process_items _ ?s] => destruct (IH s) as (st' & Hrun & Hscores)
      end.
      exists st'. split; [exact Hrun|].
      rewrite Hscores. cbn [all_scores].
      destruct (py_int (score_of d)); [now rewrite <- app_assoc | reflexivity].
Qed.

Lemma sum_scores_fold_right (l : list Z) : sum_scores l = fold_right Z.add 0 l.
Proof.
  unfold sum_scores. apply fold_symmetric; intros; lia.
Qed.

(** The exact quotient is defined exactly on a score list that is not
    empty, and is then the mean. *)
Lemma avg_score_mean (scores : list Z) :
  scores <> [] -> exists q, avg_score scores = Some q /\ (q == mean scores)%Q.
Proof.
  intros Hne. destruct scores as [|z scores]; [contradiction|].
  eexists. split; [reflexivity|].
  rewrite Qred_correct. unfold mean. now rewrite sum_scores_fold_right.
Qed.

(** *** The quotient of two integers

    [int_true_div] returns a number of binary64 nearest to the exact
    quotient, and raises exactly when the quotient rounds beyond the
    greatest float. *)

(** No integer is nearer to [x / y] than [round_half_even x y]. *)
Lemma round_half_even_nearest (x y k : Z) :
  0 <= x -> 0 < y ->
  Z.abs (round_half_even x y * y - x) <= Z.abs (k * y - x).
Proof.
  intros Hx Hy. unfold round_half_even.
  pose proof (Z.div_mod x y ltac:(lia)) as Hdiv.
  pose proof (Z.mod_pos_bound x y Hy) as Hmod.
  set (q := x / y) in *. set (r := x mod y) in *.
  assert (Hk : k <= q \/ q + 1 <= k) by lia.
  destruct (Z.ltb_spec (2 * r) y); [|destruct (Z.ltb_spec y (2 * r));
    [|destruct (Z.even q)]]; destruct Hk; nia.
Qed.

(** Rounding stays between two integers that enclose the quotient. *)
Lemma round_half_even_bounds (x y lo hi : Z) :
  0 <= x -> 0 < y -> lo * y <= x -> x < hi * y ->
  lo <= round_half_even x y <= hi.
Proof.
  intros Hx Hy Hlo Hhi. unfold round_half_even.
  pose proof (Z.div_mod x y ltac:(lia)) as Hdiv.
  pose proof (Z.mod_pos_bound x y Hy) as Hmod.
  set (q := x / y) in *. set (r := x mod y) in *.
  assert (lo <= q) by nia. assert (q < hi) by nia.
  destruct (Z.ltb_spec (2 * r) y); [|destruct (Z.ltb_spec y (2 * r));
    [|destruct (Z.even q)]]; lia.
Qed.

Section QuotientFacts.

#[local] Open Scope Q_scope.

Lemma Qpow2_pos (e : Z) : 0 < 2 ^ e.
Proof. apply Qpower_0_lt. reflexivity. Qed.

Lemma Qpow2_add (e1 e2 : Z) : 2 ^ (e1 + e2) == 2 ^ e1 * 2 ^ e2.
Proof. apply Qpower_plus. discriminate. Qed.

Lemma Qpow2_Z (n : Z) : (0 <= n)%Z -> inject_Z (2 ^ n) == 2 ^ n.
Proof. intros Hn. now rewrite Zpower_Qpower. Qed.

Lemma Qpow2_le (n m : Z) : (n <= m)%Z -> 2 ^ n <= 2 ^ m.
Proof. intros H. apply Qpower_le_compat_l; [exact H | discriminate]. Qed.

Lemma Qpow2_split (e : Z) : 2 ^ Z.max 0 e == 2 ^ e * 2 ^ Z.max 0 (- e).
Proof.
  rewrite <- Qpow2_add. replace (e + Z.max 0 (- e))%Z with (Z.max 0 e) by lia.
  reflexivity.
Qed.

Lemma inject_Z_pos (b : Z) : (0 < b)%Z -> 0 < inject_Z b.
Proof. intros Hb. change 0 with (inject_Z 0). now rewrite <- Zlt_Qlt. Qed.

(** The scaled numerator and denominator of [a / b / 2 ^ e]: the
    difference of [k] times the one and the other is the difference of
    [k * 2 ^ e] and [a / b], up to a positive factor. *)
Lemma scaled_difference (a b e k : Z) :
  (0 < b)%Z ->
  inject_Z (k * (b * 2 ^ Z.max 0 e) - a * 2 ^ Z.max 0 (- e))
  == (inject_Z k * 2 ^ e - inject_Z a / inject_Z b)
     * (inject_Z b * 2 ^ Z.max 0 (- e)).
Proof.
  intros Hb. pose proof (inject_Z_pos b Hb) as Hbpos.
  unfold Zminus. rewrite inject_Z_plus, inject_Z_opp, !inject_Z_mult.
  rewrite !Qpow2_Z by lia. rewrite (Qpow2_split e).
  field. lra.
Qed.

Lemma scale_factor_pos (b e : Z) :
  (0 < b)%Z -> 0 < inject_Z b * 2 ^ Z.max 0 (- e).
Proof.
  intros Hb. apply Qmult_lt_0_compat; [now apply inject_Z_pos | apply Qpow2_pos].
Qed.

Lemma scaled_lt (a b e k : Z) :
  (0 < b)%Z ->
  (a * 2 ^ Z.max 0 (- e) < k * (b * 2 ^ Z.max 0 e))%Z
  <-> inject_Z a / inject_Z b < inject_Z k * 2 ^ e.
Proof.
  intros Hb. pose proof (scale_factor_pos b e Hb) as Hc.
  pose proof (scaled_difference a b e k Hb) as Hd.
  split; intros H.
  - assert (H0 : 0 < inject_Z (k * (b * 2 ^ Z.max 0 e) - a * 2 ^ Z.max 0 (- e)))
      by (apply inject_Z_pos; lia).
    rewrite Hd in H0.
    destruct (Qlt_le_dec (inject_Z a / inject_Z b) (inject_Z k * 2 ^ e)) as [L | L];
      [exact L | exfalso].
    apply (Qlt_not_le _ _ H0).
    rewrite <- (Qmult_0_l (inject_Z b * 2 ^ Z.max 0 (- e))).
    apply Qmult_le_compat_r; lra.
  - assert (H0 : 0 < (inject_Z k * 2 ^ e - inject_Z a / inject_Z b)
                     * (inject_Z b * 2 ^ Z.max 0 (- e)))
      by (apply Qmult_lt_0_compat; lra).
    rewrite <- Hd in H0. change 0 with (inject_Z 0) in H0.
    rewrite <- Zlt_Qlt in H0. lia.
Qed.

Lemma scaled_le (a b e k : Z) :
  (0 < b)%Z ->
  (k * (b * 2 ^ Z.max 0 e) <= a * 2 ^ Z.max 0 (- e))%Z
  <-> inject_Z k * 2 ^ e <= inject_Z a / inject_Z b.
Proof.
  intros Hb. pose proof (scaled_lt a b e k Hb) as [H1 H2].
  split; intros H.
  - apply Qnot_lt_le. intros L. apply H2 in L. lia.
  - apply Z.le_ngt. intros L. apply H1 in L. lra.
Qed.

Lemma scaled_distance (a b e k : Z) :
  (0 < b)%Z ->
  inject_Z (Z.abs (k * (b * 2 ^ Z.max 0 e) - a * 2 ^ Z.max 0 (- e)))
  == Qabs (inject_Z k * 2 ^ e - inject_Z a / inject_Z b)
     * (inject_Z b * 2 ^ Z.max 0 (- e)).
Proof.
  intros Hb. pose proof (scale_factor_pos b e Hb) as Hc.
  transitivity (Qabs ((inject_Z k * 2 ^ e - inject_Z a / inject_Z b)
                      * (inject_Z b * 2 ^ Z.max 0 (- e))));
    [|rewrite Qabs_Qmult, (Qabs_pos (inject_Z b * 2 ^ Z.max 0 (- e))) by lra;
      reflexivity].
  unfold inject_Z at 1. rewrite Zabs_Qabs. apply Qabs_wd.
  now apply scaled_difference.
Qed.

(** The mantissa is an integer nearest to the quotient divided by the power
    of two. *)
Lemma scaled_quotient_nearest (a b e k : Z) :
  (0 <= a)%Z -> (0 < b)%Z ->
  Qabs (inject_Z (scaled_quotient a b e) * 2 ^ e - inject_Z a / inject_Z b)
  <= Qabs (inject_Z k * 2 ^ e - inject_Z a / inject_Z b).
Proof.
  intros Ha Hb. pose proof (scale_factor_pos b e Hb) as Hc.
  assert (Hpow : forall n, (0 < 2 ^ Z.max 0 n)%Z)
    by (intros n; apply Z.pow_pos_nonneg; lia).
  pose proof (round_half_even_nearest (a * 2 ^ Z.max 0 (- e))
                (b * 2 ^ Z.max 0 e) k
                ltac:(specialize (Hpow (- e)%Z); nia)
                ltac:(specialize (Hpow e); nia)) as H.
  fold (scaled_quotient a b e) in H.
  rewrite Zle_Qle, !scaled_distance in H by assumption.
  apply Qmult_le_r in H; assumption.
Qed.

Lemma log2_bounds (a : Z) :
  (0 < a)%Z -> 2 ^ Z.log2 a <= inject_Z a /\ inject_Z a < 2 ^ (Z.log2 a + 1).
Proof.
  intros Ha. pose proof (Z.log2_spec a Ha) as [Hlo Hhi].
  pose proof (Z.log2_nonneg a) as Hnn.
  rewrite <- !Qpow2_Z by lia.
  rewrite <- Zle_Qle, <- Zlt_Qlt. replace (Z.log2 a + 1)%Z with (Z.succ (Z.log2 a)) by lia.
  now split.
Qed.

(** The exponent is the one of binary64 at the quotient. *)
Lemma quotient_exponent_spec (a b : Z) :
  (0 < a)%Z -> (0 < b)%Z ->
  let e := quotient_exponent a b in
  (-1074 <= e)%Z
  /\ inject_Z a / inject_Z b < 2 ^ (e + 53)
  /\ ((-1074 < e)%Z -> 2 ^ (e + 52) <= inject_Z a / inject_Z b).
Proof.
  intros Ha Hb. unfold quotient_exponent.
  set (d := (Z.log2 a - Z.log2 b)%Z).
  pose proof (inject_Z_pos b Hb) as Hbpos.
  pose proof (log2_bounds a Ha) as [Halo Hahi].
  pose proof (log2_bounds b Hb) as [Hblo Hbhi].
  pose proof (Qpow2_pos (Z.log2 b)) as Hpb.
  assert (Hup : inject_Z a / inject_Z b < 2 ^ (d + 1)).
  { apply Qlt_shift_div_r; [exact Hbpos|].
    apply Qlt_le_trans with (1 := Hahi).
    replace (Z.log2 a + 1)%Z with ((d + 1) + Z.log2 b)%Z by (unfold d; lia).
    rewrite Qpow2_add. apply Qmult_le_l; [apply Qpow2_pos | exact Hblo]. }
  assert (Hdown : 2 ^ (d - 1) <= inject_Z a / inject_Z b).
  { apply Qle_shift_div_l; [exact Hbpos|].
    apply Qle_trans with (2 := Halo).
    replace (Z.log2 a) with ((d - 1) + (Z.log2 b + 1))%Z by (unfold d; lia).
    rewrite Qpow2_add. apply Qmult_le_l; [apply Qpow2_pos | lra]. }
  pose proof (scaled_lt a b d 1 Hb) as Hlt.
  pose proof (scaled_le a b d 1 Hb) as Hle.
  rewrite Z.mul_1_l, Qmult_1_l in Hlt, Hle.
  destruct (Z.ltb_spec (a * 2 ^ Z.max 0 (- d)) (b * 2 ^ Z.max 0 d)) as [T | T].
  - apply Hlt in T. split; [lia|]. split.
    + apply Qlt_le_trans with (1 := T). apply Qpow2_le. lia.
    + intros He. replace (Z.max (d - 53) (-1074) + 52)%Z with (d - 1)%Z by lia.
      exact Hdown.
  - apply Hle in T. split; [lia|]. split.
    + apply Qlt_le_trans with (1 := Hup). apply Qpow2_le. lia.
    + intros He. replace (Z.max (d - 52) (-1074) + 52)%Z with d by lia.
      exact T.
Qed.

Lemma Qpow2_53 (e : Z) : inject_Z (2 ^ 53) * 2 ^ e == 2 ^ (e + 53).
Proof. rewrite Qpow2_Z by lia. rewrite Qpow2_add. ring. Qed.

Lemma Qpow2_52 (e : Z) : inject_Z (2 ^ 52) * 2 ^ e == 2 ^ (e + 52).
Proof. rewrite Qpow2_Z by lia. rewrite Qpow2_add. ring. Qed.

(** The mantissa has at most 53 bits, and exactly 53 above the subnormal
    numbers, but for the one case that rounding carried it to [2 ^ 53]. *)
Lemma scaled_quotient_bounds (a b : Z) :
  (0 < a)%Z -> (0 < b)%Z ->
  let e := quotient_exponent a b in
  (0 <= scaled_quotient a b e <= 2 ^ 53)%Z
  /\ ((-1074 < e)%Z -> (2 ^ 52 <= scaled_quotient a b e)%Z).
Proof.
  intros Ha Hb e.
  destruct (quotient_exponent_spec a b Ha Hb) as (He & Hup & Hdown).
  fold e in He, Hup, Hdown.
  assert (Hpow : forall n, (0 < 2 ^ Z.max 0 n)%Z)
    by (intros n; apply Z.pow_pos_nonneg; lia).
  assert (Hx : (0 <= a * 2 ^ Z.max 0 (- e))%Z) by (specialize (Hpow (- e)%Z); nia).
  assert (Hy : (0 < b * 2 ^ Z.max 0 e)%Z) by (specialize (Hpow e); nia).
  assert (Hhi : (a * 2 ^ Z.max 0 (- e) < 2 ^ 53 * (b * 2 ^ Z.max 0 e))%Z).
  { apply scaled_lt; [exact Hb|]. now rewrite Qpow2_53. }
  split.
  - apply round_half_even_bounds; try assumption; lia.
  - intros Hn. specialize (Hdown Hn).
    apply round_half_even_bounds with (hi := (2 ^ 53)%Z); try assumption.
    apply scaled_le; [exact Hb|]. now rewrite Qpow2_52.
Qed.

Lemma digits2_pos_bounds (p : positive) :
  (2 ^ (Z.pos (digits2_pos p) - 1) <= Z.pos p < 2 ^ Z.pos (digits2_pos p))%Z.
Proof.
  induction p as [p IH | p IH |]; cbn [digits2_pos].
  - rewrite Pos2Z.inj_succ.
    replace (Z.succ (Z.pos (digits2_pos p)) - 1)%Z
      with (Z.succ (Z.pos (digits2_pos p) - 1)) by lia.
    rewrite !Z.pow_succ_r by lia. lia.
  - rewrite Pos2Z.inj_succ.
    replace (Z.succ (Z.pos (digits2_pos p)) - 1)%Z
      with (Z.succ (Z.pos (digits2_pos p) - 1)) by lia.
    rewrite !Z.pow_succ_r by lia. lia.
  - cbn. lia.
Qed.

(** The finite numbers of binary64: a mantissa below [2 ^ 53] that has all
    its 53 bits unless the exponent is the least one. *)
Lemma bounded_spec (p : positive) (e : Z) :
  bounded 53 1024 p e = true
  <-> (-1074 <= e <= 971)%Z /\ (Z.pos p < 2 ^ 53)%Z
      /\ ((2 ^ 52 <= Z.pos p)%Z \/ e = (-1074)%Z).
Proof.
  unfold bounded, canonical_mantissa, fexp, emin.
  pose proof (digits2_pos_bounds p) as [Hlo Hhi].
  set (D := Z.pos (digits2_pos p)) in *.
  assert (HD : (0 < D)%Z) by (unfold D; lia).
  rewrite andb_true_iff, Z.eqb_eq, Z.leb_le.
  assert (H53 : (D <= 53 <-> Z.pos p < 2 ^ 53)%Z).
  { split; intros H.
    - apply Z.lt_le_trans with (1 := Hhi). apply Z.pow_le_mono_r; lia.
    - apply Z.le_ngt. intros L.
      assert (2 ^ 53 <= 2 ^ (D - 1))%Z by (apply Z.pow_le_mono_r; lia). lia. }
  assert (H52 : (53 <= D <-> 2 ^ 52 <= Z.pos p)%Z).
  { split; intros H.
    - apply Z.le_trans with (2 := Hlo). apply Z.pow_le_mono_r; lia.
    - apply Z.le_ngt. intros L.
      assert (2 ^ D <= 2 ^ 52)%Z by (apply Z.pow_le_mono_r; lia). lia. }
  lia.
Qed.

Lemma on_grid_opp (v : Q) : on_grid v -> on_grid (- v).
Proof.
  intros (k & eg & Heg & Hk & Hv). exists (- k)%Z, eg.
  split; [exact Heg|]. split; [lia|].
  rewrite Hv, inject_Z_opp. ring.
Qed.

Lemma float_value_on_grid (g : spec_float) :
  is_binary64 g = true -> on_grid (float_value g).
Proof.
  destruct g as [s | s | | s m e]; try discriminate; intros H.
  - exists 0%Z, (-1074)%Z. split; [lia|]. split; [reflexivity|].
    cbn [float_value]. ring.
  - cbn [is_binary64] in H. apply bounded_spec in H as (He & Hm & _).
    exists (if s then Z.neg m else Z.pos m), e.
    split; [lia|]. split; [destruct s; cbn [Z.abs]; exact Hm | reflexivity].
Qed.

(** Above the grid of its own exponent no number of binary64 is nearer to
    the quotient than the mantissa times the power of two. *)
Lemma nearest_on_grid (a b : Z) (v : Q) :
  (0 < a)%Z -> (0 < b)%Z -> on_grid v ->
  let e := quotient_exponent a b in
  Qabs (inject_Z (scaled_quotient a b e) * 2 ^ e - inject_Z a / inject_Z b)
  <= Qabs (v - inject_Z a / inject_Z b).
Proof.
  intros Ha Hb (k & eg & Heg & Hk & Hv) e.
  destruct (quotient_exponent_spec a b Ha Hb) as (He & Hup & Hdown).
  fold e in He, Hup, Hdown.
  rewrite Hv.
  destruct (Z.le_gt_cases e eg) as [Hle | Hgt].
  - assert (E : inject_Z k * 2 ^ eg == inject_Z (k * 2 ^ (eg - e)) * 2 ^ e).
    { rewrite inject_Z_mult, Qpow2_Z by lia.
      rewrite <- Qmult_assoc, <- Qpow2_add.
      now replace (eg - e + e)%Z with eg by lia. }
    rewrite E. apply scaled_quotient_nearest; lia.
  - specialize (Hdown ltac:(lia)).
    pose proof (scaled_quotient_nearest a b e (2 ^ 52) ltac:(lia) Hb) as Hnear.
    rewrite Qpow2_52 in Hnear.
    rewrite (Qabs_neg (2 ^ (e + 52) - inject_Z a / inject_Z b)) in Hnear by lra.
    assert (Hv' : inject_Z k * 2 ^ eg < 2 ^ (e + 52)).
    { apply Qlt_le_trans with (2 ^ (eg + 53)); [|apply Qpow2_le; lia].
      rewrite <- Qpow2_53.
      apply Qmult_lt_r; [apply Qpow2_pos|].
      rewrite <- Zlt_Qlt. lia. }
    rewrite (Qabs_neg (inject_Z k * 2 ^ eg - inject_Z a / inject_Z b)) by lra.
    lra.
Qed.

Lemma inject_Z_nonzero (b : Z) : b <> 0%Z -> ~ inject_Z b == 0.
Proof. intros Hb. unfold Qeq, inject_Z. cbn. lia. Qed.

Lemma signed_quotient (a b : Z) :
  b <> 0%Z ->
  inject_Z a / inject_Z b
  == (if xorb (a <? 0)%Z (b <? 0)%Z then -1 else 1)
     * (inject_Z (Z.abs a) / inject_Z (Z.abs b)).
Proof.
  intros Hb. pose proof (inject_Z_nonzero b Hb) as Hb'.
  destruct (Z.ltb_spec a 0), (Z.ltb_spec b 0); cbn [xorb];
    rewrite ?(Z.abs_neq a), ?(Z.abs_neq b), ?(Z.abs_eq a), ?(Z.abs_eq b) by lia;
    rewrite ?inject_Z_opp; field; lra.
Qed.

(** What the division returns: a number of binary64 whose value is the
    mantissa times the power of two, with the sign of the quotient. *)
Lemma int_true_div_value (a b : Z) (f : spec_float) :
  a <> 0%Z -> int_true_div a b = Ok f ->
  let e := quotient_exponent (Z.abs a) (Z.abs b) in
  b <> 0%Z /\ is_binary64 f = true
  /\ float_value f
     == (if xorb (a <? 0)%Z (b <? 0)%Z then -1 else 1)
        * (inject_Z (scaled_quotient (Z.abs a) (Z.abs b) e) * 2 ^ e).
Proof.
  intros Ha H e. unfold int_true_div in H.
  destruct (Z.eqb_spec b 0) as [|Hb]; [discriminate|].
  destruct (Z.eqb_spec a 0) as [|_]; [contradiction|].
  fold e in H.
  destruct (quotient_exponent_spec (Z.abs a) (Z.abs b) ltac:(lia) ltac:(lia))
    as (He & _).
  destruct (scaled_quotient_bounds (Z.abs a) (Z.abs b) ltac:(lia) ltac:(lia))
    as (Hm & Hnormal).
  fold e in He, Hm, Hnormal.
  set (m := scaled_quotient (Z.abs a) (Z.abs b) e) in *.
  set (s := xorb (a <? 0)%Z (b <? 0)%Z) in *.
  split; [exact Hb|].
  destruct (Z.eqb_spec m (2 ^ 53)) as [E | E].
  - destruct (Z.ltb_spec 971 (e + 1)); [discriminate|].
    change (2 ^ 52)%Z with (Z.pos 4503599627370496) in H.
    injection H as <-. split.
    + cbn [is_binary64]. apply bounded_spec.
      change (Z.pos 4503599627370496) with (2 ^ 52)%Z. lia.
    + rewrite E. cbn [float_value].
      assert (E2 : inject_Z (if s then Z.neg 4503599627370496 else Z.pos 4503599627370496)
                   == (if s then -1 else 1) * inject_Z (2 ^ 52)).
      { destruct s; [change (Z.neg 4503599627370496) with (- 2 ^ 52)%Z;
                     rewrite inject_Z_opp; ring
                    | change (Z.pos 4503599627370496) with (2 ^ 52)%Z; ring]. }
      rewrite E2, <- !Qmult_assoc, Qpow2_52, Qpow2_53.
      now replace (e + 1 + 52)%Z with (e + 53)%Z by lia.
  - destruct (Z.ltb_spec 971 e); [discriminate|].
    destruct m as [|p|p] eqn:Em; [| |lia]; injection H as <-.
    + split; [reflexivity|]. cbn [float_value]. ring.
    + split.
      * cbn [is_binary64]. apply bounded_spec.
        split; [lia|]. split; [lia|].
        destruct (Z.eq_dec e (-1074)); [now right | left; apply Hnormal; lia].
      * cbn [float_value]. destruct s; [|ring].
        change (Z.neg p) with (- Z.pos p)%Z. rewrite inject_Z_opp. ring.
Qed.

(** Python's quotient of two [int]s is a number of binary64, and no
    number of the grid is nearer to the exact quotient. *)
Lemma int_true_div_nearest_on_grid (a b : Z) (f : spec_float) (v : Q) :
  int_true_div a b = Ok f -> on_grid v ->
  Qabs (float_value f - inject_Z a / inject_Z b)
  <= Qabs (v - inject_Z a / inject_Z b).
Proof.
  intros H Hgrid.
  destruct (Z.eq_dec a 0) as [-> | Ha].
  - unfold int_true_div in H.
    destruct (Z.eqb_spec b 0); [discriminate|]. cbn in H. injection H as <-.
    cbn [float_value].
    assert (E : 0 - inject_Z 0 / inject_Z b == 0) by (unfold Qdiv; ring).
    rewrite E. apply Qabs_nonneg.
  - destruct (int_true_div_value a b f Ha H) as (Hb & Hf & Hv).
    pose proof (on_grid_opp _ Hgrid) as Hgrid'.
    rewrite Hv, (signed_quotient a b Hb).
    destruct (xorb (a <? 0)%Z (b <? 0)%Z).
    + pose proof (nearest_on_grid (Z.abs a) (Z.abs b) _ ltac:(lia) ltac:(lia) Hgrid')
        as Hnear.
      cbv zeta in Hnear.
      set (M := inject_Z (scaled_quotient _ _ _) * 2 ^ _) in *.
      set (q := inject_Z (Z.abs a) / inject_Z (Z.abs b)) in *.
      assert (E1 : -1 * M - -1 * q == - (M - q)) by ring.
      assert (E2 : v - -1 * q == - (- v - q)) by ring.
      rewrite E1, E2, !Qabs_opp. exact Hnear.
    + pose proof (nearest_on_grid (Z.abs a) (Z.abs b) _ ltac:(lia) ltac:(lia) Hgrid)
        as Hnear.
      cbv zeta in Hnear.
      set (M := inject_Z (scaled_quotient _ _ _) * 2 ^ _) in *.
      set (q := inject_Z (Z.abs a) / inject_Z (Z.abs b)) in *.
      assert (E1 : 1 * M - 1 * q == M - q) by ring.
      assert (E2 : v - 1 * q == v - q) by ring.
      rewrite E1, E2. exact Hnear.
Qed.

Lemma int_true_div_binary64 (a b : Z) (f : spec_float) :
  int_true_div a b = Ok f -> is_binary64 f = true.
Proof.
  intros H. destruct (Z.eq_dec a 0) as [-> | Ha].
  - unfold int_true_div in H.
    destruct (Z.eqb_spec b 0); [discriminate|]. cbn in H. now injection H as <-.
  - now destruct (int_true_div_value a b f Ha H) as (_ & Hf & _).
Qed.

(** Python's quotient of two [int]s is a number of binary64 nearest to the
    exact quotient. *)
Lemma int_true_div_is_nearest (a b : Z) (f : spec_float) :
  int_true_div a b = Ok f -> nearest_float (inject_Z a / inject_Z b) f.
Proof.
  intros H. split; [exact (int_true_div_binary64 a b f H)|].
  intros g Hg. apply int_true_div_nearest_on_grid; [exact H|].
  now apply float_value_on_grid.
Qed.

Lemma nearest_float_eq (q q' : Q) (f : spec_float) :
  q == q' -> nearest_float q f -> nearest_float q' f.
Proof.
  intros E [Hf Hnear]. split; [exact Hf|].
  intros g Hg. rewrite <- E. now apply Hnear.
Qed.

(** The integers up to [2 ^ 53] in magnitude are on the grid. *)
Lemma on_grid_int (z : Z) : (Z.abs z <= 2 ^ 53)%Z -> on_grid (inject_Z z).
Proof.
  intros Hz.
  destruct (Z.eq_dec (Z.abs z) (2 ^ 53)) as [E | E].
  - exists (Z.sgn z * 2 ^ 52)%Z, 1%Z.
    split; [lia|]. split; [lia|].
    assert (Ez : z = (Z.sgn z * 2 ^ 52 * 2)%Z) by lia.
    rewrite Ez at 1. rewrite (inject_Z_mult _ 2). reflexivity.
  - exists z, 0%Z. split; [lia|]. split; [lia|]. cbn. ring.
Qed.

(** A quotient between two integers of the grid is rounded to a float
    between them. *)
Lemma int_true_div_between (a b lo hi : Z) (f : spec_float) :
  int_true_div a b = Ok f ->
  (Z.abs lo <= 2 ^ 53)%Z -> (Z.abs hi <= 2 ^ 53)%Z ->
  inject_Z lo <= inject_Z a / inject_Z b <= inject_Z hi ->
  inject_Z lo <= float_value f <= inject_Z hi.
Proof.
  intros H Hlo Hhi [Hq1 Hq2].
  pose proof (int_true_div_nearest_on_grid a b f _ H (on_grid_int lo Hlo)) as N1.
  pose proof (int_true_div_nearest_on_grid a b f _ H (on_grid_int hi Hhi)) as N2.
  rewrite (Qabs_neg (inject_Z lo - _)) in N1 by lra.
  rewrite (Qabs_pos (inject_Z hi - _)) in N2 by lra.
  apply Qabs_Qle_condition in N1, N2. lra.
Qed.

End QuotientFacts.


(** Rounding reaches [n] from below exactly from half a unit under it on,
    when the tie goes up, that is when [n] is even. *)
Lemma round_half_even_carry (x y n : Z) :
  0 <= x -> 0 < y -> Z.even n = true -> x < n * y ->
  (round_half_even x y = n <-> (2 * n - 1) * y <= 2 * x).
Proof.
  intros Hx Hy Hn Hlt. unfold round_half_even.
  pose proof (Z.div_mod x y ltac:(lia)) as Hdiv.
  pose proof (Z.mod_pos_bound x y Hy) as Hmod.
  set (q := x / y) in *. set (r := x mod y) in *.
  assert (Hq : q < n) by nia.
  assert (Hodd : q = n - 1 -> Z.even q = false).
  { intros ->. replace (n - 1) with (Z.pred n) by lia.
    rewrite Z.even_pred. rewrite <- Z.negb_even. now rewrite Hn. }
  destruct (Z.ltb_spec (2 * r) y); [|destruct (Z.ltb_spec y (2 * r));
    [|destruct (Z.even q) eqn:Ev]].
  - split; intros H'; nia.
  - split; intros H'; nia.
  - assert (q <> n - 1) by (intros E; discriminate (Hodd E)).
    split; intros H'; nia.
  - split; intros H'; nia.
Qed.

Lemma scale_nonneg (e : Z) :
  0 <= e -> 2 ^ Z.max 0 (- e) = 1 /\ Z.max 0 e = e.
Proof.
  intros He. split; [|lia]. now replace (Z.max 0 (- e)) with 0 by lia.
Qed.

(** The division overflows exactly from the middle between the greatest
    float and [2 ^ 1024] on. *)
Lemma int_true_div_overflow (a b : Z) :
  b <> 0 ->
  (int_true_div a b = Raise OverflowError
   <-> (2 ^ 1024 - 2 ^ 970) * Z.abs b <= Z.abs a).
Proof.
  intros Hb.
  replace ((2 ^ 1024 - 2 ^ 970) * Z.abs b)
    with ((2 ^ 54 - 1) * (Z.abs b * 2 ^ 970))
    by (replace (2 ^ 1024 - 2 ^ 970) with ((2 ^ 54 - 1) * 2 ^ 970)
          by reflexivity; ring).
  unfold int_true_div.
  destruct (Z.eqb_spec b 0) as [|_]; [contradiction|].
  destruct (Z.eqb_spec a 0) as [-> | Ha].
  { split; [discriminate|]. intros H. exfalso.
    assert (0 < 2 ^ 970) by (apply Z.pow_pos_nonneg; lia).
    cbn [Z.abs] in H. nia. }
  assert (HA : 0 < Z.abs a) by lia. assert (HB : 0 < Z.abs b) by lia.
  destruct (quotient_exponent_spec _ _ HA HB) as (He & Hup & Hdown).
  destruct (scaled_quotient_bounds _ _ HA HB) as (Hm & _).
  set (e := quotient_exponent (Z.abs a) (Z.abs b)) in *.
  set (m := scaled_quotient (Z.abs a) (Z.abs b) e) in *.
  pose proof (scaled_le (Z.abs a) (Z.abs b) 970 (2 ^ 54 - 1) HB) as Hthr.
  destruct (scale_nonneg 970 ltac:(lia)) as [S1 S2].
  destruct (scale_nonneg 971 ltac:(lia)) as [S3 S4].
  rewrite S1, S2, Z.mul_1_r in Hthr.
  rewrite Hthr. clear Hthr.
  assert (Hk : (inject_Z (2 ^ 54 - 1) * 2 ^ 970 <= 2 ^ 1024)%Q).
  { replace 1024 with (970 + 54) by reflexivity.
    rewrite Qpow2_add, Qmult_comm.
    apply Qmult_le_l; [apply Qpow2_pos|].
    rewrite <- Qpow2_Z by lia. rewrite <- Zle_Qle. lia. }
  assert (Hk' : (2 ^ 1023 <= inject_Z (2 ^ 54 - 1) * 2 ^ 970)%Q).
  { replace 1023 with (970 + 53) by reflexivity.
    rewrite Qpow2_add, Qmult_comm.
    apply Qmult_le_r; [apply Qpow2_pos|].
    rewrite <- Qpow2_Z by lia. rewrite <- Zle_Qle. lia. }
  assert (Hcarry : e = 971 ->
            (m = 2 ^ 53
             <-> (inject_Z (2 ^ 54 - 1) * 2 ^ 970
                  <= inject_Z (Z.abs a) / inject_Z (Z.abs b))%Q)).
  { intros E.
    rewrite <- (scaled_le (Z.abs a) (Z.abs b) 970 (2 ^ 54 - 1) HB).
    rewrite S1, S2.
    unfold m, scaled_quotient. rewrite E, S3, S4.
    replace (2 ^ 971) with (2 * 2 ^ 970) by reflexivity.
    assert (0 < 2 ^ 970) by (apply Z.pow_pos_nonneg; lia).
    assert (Hlt : Z.abs a * 1 < 2 ^ 53 * (Z.abs b * (2 * 2 ^ 970))).
    { pose proof (proj2 (scaled_lt (Z.abs a) (Z.abs b) 971 (2 ^ 53) HB)) as Hlt.
      rewrite S3, S4 in Hlt.
      replace (2 ^ 971) with (2 * 2 ^ 970) in Hlt by reflexivity.
      apply Hlt. rewrite Qpow2_53. rewrite <- E. exact Hup. }
    assert (Hy : 0 < Z.abs b * (2 * 2 ^ 970)) by nia.
    rewrite (round_half_even_carry (Z.abs a * 1) _ (2 ^ 53) ltac:(lia) Hy
               eq_refl Hlt).
    change (2 * 2 ^ 53 - 1) with (2 ^ 54 - 1).
    replace (Z.abs b * (2 * 2 ^ 970)) with (2 * (Z.abs b * 2 ^ 970)) by ring.
    generalize (Z.abs b * 2 ^ 970). generalize (2 ^ 54 - 1). intros K W.
    rewrite (Z.mul_assoc K 2 W), (Z.mul_comm K 2), <- (Z.mul_assoc 2 K W).
    lia. }
  destruct (Z.eqb_spec m (2 ^ 53)) as [Em | Em].
  - destruct (Z.ltb_spec 971 (e + 1)) as [Hov | Hov].
    + split; [intros _ | reflexivity].
      destruct (Z.eq_dec e 971) as [E | E]; [now apply Hcarry|].
      apply Qle_trans with (1 := Hk).
      apply Qle_trans with (2 := Hdown ltac:(lia)). apply Qpow2_le. lia.
    + change (2 ^ 52) with (Z.pos 4503599627370496).
      split; [discriminate|]. intros H. exfalso.
      assert (Hlt : (2 ^ 1023 < 2 ^ (e + 53))%Q) by lra.
      apply Qlt_not_le in Hlt. apply Hlt. apply Qpow2_le. lia.
  - destruct (Z.ltb_spec 971 e) as [Hov | Hov].
    + split; [intros _ | reflexivity].
      apply Qle_trans with (1 := Hk).
      apply Qle_trans with (2 := Hdown ltac:(lia)). apply Qpow2_le. lia.
    + split.
      * destruct m; discriminate.
      * intros H. exfalso.
        destruct (Z.eq_dec e 971) as [E | E]; [now apply Em, Hcarry|].
        assert (Hlt : (2 ^ 1023 < 2 ^ (e + 53))%Q) by lra.
        apply Qlt_not_le in Hlt. apply Hlt. apply Qpow2_le. lia.
Qed.

Lemma int_true_div_raise (a b : Z) (e : exn) :
  int_true_div a b = Raise e ->
  (b = 0 /\ e = ZeroDivisionError) \/ (b <> 0 /\ e = OverflowError).
Proof.
  unfold int_true_div.
  destruct (Z.eqb_spec b 0) as [-> | Hb]; [intros [= <-]; now left|].
  destruct (a =? 0); [discriminate|].
  destruct (if _ =? _ then _ else _) as [m e'].
  destruct (971 <? e'); [intros [= <-]; now right|].
  destruct m; discriminate.
Qed.

Lemma overall_score_cons (z : Z) (scores : list Z) :
  overall_score (z :: scores)
  = Some (int_true_div (sum_scores (z :: scores))
            (Z.of_nat (List.length (z :: scores)))).
Proof. reflexivity. Qed.

Lemma mean_quotient (scores : list Z) :
  (inject_Z (sum_scores scores) / inject_Z (Z.of_nat (List.length scores))
   == mean scores)%Q.
Proof. unfold mean. now rewrite sum_scores_fold_right. Qed.

(** On a score list that is not empty the division returns a float nearest
    to the mean below the threshold of overflow, and raises
    [OverflowError] from it on. *)
Lemma overall_score_cases (scores : list Z) :
  scores <> [] ->
  (Z.abs (sum_scores scores)
     < (2 ^ 1024 - 2 ^ 970) * Z.of_nat (List.length scores) ->
   exists f, overall_score scores = Some (Ok f)
             /\ nearest_float (mean scores) f)
  /\ ((2 ^ 1024 - 2 ^ 970) * Z.of_nat (List.length scores)
        <= Z.abs (sum_scores scores) ->
      overall_score scores = Some (Raise OverflowError)).
Proof.
  intros Hne. destruct scores as [|z scores]; [contradiction|].
  rewrite overall_score_cons.
  set (l := (z :: scores)%list).
  assert (Hn : Z.of_nat (List.length l) <> 0) by (cbn [l List.length]; lia).
  pose proof (int_true_div_overflow (sum_scores l) _ Hn) as Hov.
  rewrite (Z.abs_eq (Z.of_nat _)) in Hov by lia.
  split.
  - intros Hlt.
    destruct (int_true_div (sum_scores l) (Z.of_nat (List.length l)))
      as [f | e] eqn:Hdiv.
    + exists f. split; [reflexivity|].
      apply nearest_float_eq with (1 := mean_quotient l).
      now apply int_true_div_is_nearest.
    + destruct (int_true_div_raise _ _ _ Hdiv) as [[H0 _] | [_ ->]];
        [contradiction|].
      pose proof (proj1 Hov eq_refl). lia.
  - intros Hge. f_equal. now apply Hov.
Qed.

(** The summary shows the gauge of the overall score, no gauge when there
    is no score, and ends where the division raises. *)
Lemma summary_gauge_cases (st : report) :
  (forall f, overall_score (all_scores st) = Some (Ok f) ->
             summary_gauge st = Ok [Gauge f])
  /\ (overall_score (all_scores st) = None -> summary_gauge st = Ok [])
  /\ (forall e, overall_score (all_scores st) = Some (Raise e) ->
                summary_gauge st = Raise e /\ summary st = Raise e).
Proof.
  unfold summary, summary_widgets, summary_gauge.
  repeat split; intros; now rewrite H.
Qed.

(** C7, as the code has it: over any list of issue records the loop
    appends to the score list [int(item.get('bias_score', 0))] for every
    record without an [error] key on which the conversion returns, a
    record without [bias_score] counting as 0, and skips the others without
    an error.  On an empty score list no score is computed, nothing is
    divided and no gauge is shown.  On a score list that is not empty the
    overall score is the quotient of the sum by the length as Python
    divides two [int]s: a float nearest to the mean, which the gauge
    shows, when the mean is below [2 ^ 1024 - 2 ^ 970] in magnitude, and
    an [OverflowError] that ends the run otherwise.  The scores 10, 20 and
    ["bad"] give the list 10, 20 and the score 15.0. *)
Theorem overall_score_is_mean_of_convertible_scores
    (items : list (dict pyval)) (st : report) :
  exists st',
    process_results (PList (map PDict items)) st = Ok st'
    /\ all_scores st' = (all_scores st ++ convertible_scores items)%list
    /\ (all_scores st' = [] ->
        overall_score (all_scores st') = None /\ summary_gauge st' = Ok [])
    /\ (all_scores st' <> [] ->
        Z.abs (sum_scores (all_scores st'))
          < (2 ^ 1024 - 2 ^ 970) * Z.of_nat (List.length (all_scores st')) ->
        exists f,
          overall_score (all_scores st') = Some (Ok f)
          /\ nearest_float (mean (all_scores st')) f
          /\ summary_gauge st' = Ok [Gauge f])
    /\ (all_scores st' <> [] ->
        (2 ^ 1024 - 2 ^ 970) * Z.of_nat (List.length (all_scores st'))
          <= Z.abs (sum_scores (all_scores st')) ->
        overall_score (all_scores st') = Some (Raise OverflowError)
        /\ summary_gauge st' = Raise OverflowError
        /\ summary st' = Raise OverflowError)
    /\ convertible_scores three_issues = [10; 20]
    /\ overall_score (convertible_scores three_issues) = Some (Ok float_15)
    /\ (float_value float_15 == 15)%Q.
Proof.
  destruct (process_items_scores items st) as (st' & Hrun & Hscores).
  destruct (summary_gauge_cases st') as (Hshown & Hnothing & Hraise).
  exists st'. cbn [process_results].
  split; [exact Hrun|]. split; [exact Hscores|].
  split; [|split; [|split; [|split; [|split]]]]; try reflexivity.
  - intros Hempty.
    assert (Hnone : overall_score (all_scores st') = None)
      by now rewrite Hempty.
    split; [exact Hnone | now apply Hnothing].
  - intros Hne Hlt.
    destruct (proj1 (overall_score_cases _ Hne) Hlt) as (f & Hf & Hnear).
    exists f. split; [exact Hf|]. split; [exact Hnear | now apply Hshown].
  - intros Hne Hge.
    pose proof (proj2 (overall_score_cases _ Hne) Hge) as Hov.
    split; [exact Hov | now apply Hraise].
Qed.

Lemma overall_score_is_mean_of_convertible_scores_witness :
  exists st',
    process_results (PList (map PDict three_issues)) empty_report = Ok st'
    /\ all_scores st' = [10; 20]
    /\ exists f,
         overall_score (all_scores st') = Some (Ok f)
         /\ nearest_float (mean (all_scores st')) f
         /\ summary_gauge st' = Ok [Gauge f].
Proof.
  destruct (overall_score_is_mean_of_convertible_scores three_issues empty_report)
    as (st' & Hrun & Hscores & _ & Hmean & _).
  exists st'. split; [exact Hrun|]. split; [exact Hscores|].
  apply Hmean; rewrite Hscores; [discriminate | reflexivity].
Defined.

(** C7, as the claim has it, fails on a record that has no [bias_score]:
    the record is no score that converts, yet the loop counts a 0 for it.
    Of the two issues below only the first has a score, 10; the score list
    is 10, 0 and the overall score 5.0, where the mean of the scores that
    convert is 10.0. *)
Lemma overall_score_counts_missing_score :
  process_results
    (PList [PDict [("phrase", PStr "a"); ("bias_score", PInt 10)];
            PDict [("phrase", PStr "b")]])
    empty_report
  = Ok (mkReport [10; 0] [] []
          [IssueCard (PStr "a") (PStr "N/A") (PStr "N/A") (PStr "N/A");
           IssueCard (PStr "b") (PStr "N/A") (PStr "N/A") (PStr "N/A")])
  /\ stated_scores [[("phrase", PStr "a"); ("bias_score", PInt 10)];
                    [("phrase", PStr "b")]] = [10]
  /\ overall_score [10; 0] = Some (Ok float_5)
  /\ overall_score [10] = Some (Ok float_10)
  /\ (float_value float_5 == 5)%Q
  /\ (float_value float_10 == 10)%Q.
Proof. repeat split. Qed.

(** A mean beyond the range of floats: one score of 401 digits is
    converted, and the division of the summary raises. *)
Lemma overall_score_overflow_example :
  overall_score [10 ^ 400] = Some (Raise OverflowError)
  /\ summary_gauge (mkReport [10 ^ 400] [] [] []) = Raise OverflowError
  /\ summary (mkReport [10 ^ 400] [] [] []) = Raise OverflowError.
Proof. repeat split. Qed.



Lemma some_eq {A : Type} (x y : A) : Some x = Some y -> x = y.
Proof. congruence. Qed.

Lemma avg_score_cons (z : Z) (scores : list Z) :
  avg_score (z :: scores)
  = Some (Qred (inject_Z (sum_scores (z :: scores))
                / inject_Z (Z.of_nat (List.length (z :: scores))))).
Proof. reflexivity. Qed.


(** The float of the overall score is a number of binary64 nearest to the
    exact quotient. *)
Lemma overall_score_nearest_avg_score (scores : list Z) (f : spec_float) :
  overall_score scores = Some (Ok f) ->
  exists q, avg_score scores = Some q /\ nearest_float q f.
Proof.
  intros H. destruct scores as [|z scores]; [discriminate|].
  destruct (avg_score_mean (z :: scores) ltac:(discriminate)) as (q & Hq & Hmean).
  exists q. split; [exact Hq|].
  rewrite overall_score_cons in H. apply some_eq in H.
  apply nearest_float_eq with (q := mean (z :: scores)); [now symmetry|].
  apply nearest_float_eq with (1 := mean_quotient _).
  now apply int_true_div_is_nearest.
Qed.



(** C10: on a record without [error], a category equal to ["N/A"] adds
    nothing to the tally, a recommendation equal to ["N/A"] adds nothing to
    the follow-ups, and in both cases the loop ends in the state, page
    included, in which the same record without the field leaves it. *)
Theorem na_field_counts_as_absent (d : dict pyval) (st : report) :
  dict_get "error" d = None ->
  (dict_get "category" d = Some (PStr "N/A") ->
   exists st',
     process_item (PDict d) st = Ok st'
     /\ process_item (PDict (dict_del "category" d)) st = Ok st'
     /\ all_categories st' = all_categories st)
  /\ (dict_get "recommendation" d = Some (PStr "N/A") ->
      exists st',
        process_item (PDict d) st = Ok st'
        /\ process_item (PDict (dict_del "recommendation" d)) st = Ok st'
        /\ followups st' = followups st).
Proof.
  intros Herr. split; intros Hna.
  - eexists. split; [apply process_item_issue; assumption|]. split.
    + rewrite process_item_issue by (now rewrite dict_get_del).
      unfold score_of, dict_get_default.
      rewrite !dict_get_del, Hna. reflexivity.
    + unfold dict_get_default. rewrite Hna. reflexivity.
  - eexists. split; [apply process_item_issue; assumption|]. split.
    + rewrite process_item_issue by (now rewrite dict_get_del).
      unfold score_of, dict_get_default.
      rewrite !dict_get_del, Hna. reflexivity.
    + unfold dict_get_default. rewrite Hna. reflexivity.
Qed.

Lemma na_field_counts_as_absent_witness :
  (exists st',
     process_item (PDict [("phrase", PStr "x"); ("category", PStr "N/A");
                          ("recommendation", PStr "N/A"); ("bias_score", PInt 5)])
       empty_report = Ok st'
     /\ process_item (PDict [("phrase", PStr "x");
                             ("recommendation", PStr "N/A"); ("bias_score", PInt 5)])
          empty_report = Ok st'
     /\ all_categories st' = [])
  /\ (exists st',
        process_item (PDict [("phrase", PStr "x"); ("category", PStr "N/A");
                             ("recommendation", PStr "N/A"); ("bias_score", PInt 5)])
          empty_report = Ok st'
        /\ process_item (PDict [("phrase", PStr "x"); ("category", PStr "N/A");
                                ("bias_score", PInt 5)])
             empty_report = Ok st'
        /\ followups st' = []).
Proof.
  destruct (na_field_counts_as_absent
              [("phrase", PStr "x"); ("category", PStr "N/A");
               ("recommendation", PStr "N/A"); ("bias_score", PInt 5)]
              empty_report eq_refl) as [Hcat Hrec].
  split; [exact (Hcat eq_refl) | exact (Hrec eq_refl)].
Defined.

(** * Further properties *)

(** ** The segments in closed form *)

Lemma length_slice_nonneg {A : Type} (l : list A) (a b : Z) :
  0 <= a <= b ->
  List.length (PyStr.slice l a b)
  = Nat.min (Z.to_nat (b - a)) (List.length l - Z.to_nat a).
Proof.
  intros Hab. rewrite PyStrFacts.slice_nonneg by assumption.
  now rewrite length_firstn, length_skipn.
Qed.

(** An index is below the number of segments exactly when its segment
    starts inside the text. *)
Lemma segment_count_spec (n : nat) (step : Z) (i : nat) :
  0 < step ->
  (i < segment_count n step)%nat <-> Z.of_nat i * step < Z.of_nat n.
Proof.
  intros Hstep. unfold segment_count.
  pose proof (Z.div_mod (Z.of_nat n + step - 1) step ltac:(lia)) as Hdiv.
  pose proof (Z.mod_pos_bound (Z.of_nat n + step - 1) step Hstep) as Hmod.
  assert (Hq : 0 <= (Z.of_nat n + step - 1) / step)
    by (apply Z.div_pos; lia).
  split; intros H.
  - assert (Z.of_nat i + 1 <= (Z.of_nat n + step - 1) / step) by lia. nia.
  - assert (Z.of_nat i < (Z.of_nat n + step - 1) / step) by nia. lia.
Qed.

Lemma segment_count_le (n : nat) (step : Z) :
  0 < step -> (segment_count n step <= n)%nat.
Proof.
  intros Hstep.
  destruct (Nat.le_gt_cases (segment_count n step) n) as [H | H]; [exact H|].
  apply (segment_count_spec n step n Hstep) in H. nia.
Qed.

Section SegmenterClosedForm.
Import PyStr PyStrFacts.

Variable words : list string.
Variables chunk_size overlap : Z.
Hypothesis Hcfg : 0 <= overlap < chunk_size.

(** From the start of segment [i] the loop appends the segments [i],
    [i + 1], ... up to the last one. *)
Lemma chunk_loop_closed_form (m : nat) :
  forall (i : nat) (acc : list string) (fuel : nat),
    (i + m)%nat = segment_count (List.length words) (chunk_size - overlap) ->
    (m < fuel)%nat ->
    chunk_loop fuel words chunk_size overlap
      (mkChunk (Z.of_nat i * (chunk_size - overlap)) acc)
    = Some (Ok (acc ++ map (segment_at words chunk_size overlap) (seq i m))%list).
Proof.
  induction m as [|m IH]; intros i acc fuel Hk Hfuel;
    (destruct fuel as [|fuel]; [lia|]); cbn [chunk_loop]; unfold chunk_iter;
    cbn [start segments].
  - destruct (Z.ltb_spec (Z.of_nat i * (chunk_size - overlap))
                (Z.of_nat (List.length words))) as [Hlt | Hge].
    + apply segment_count_spec in Hlt; lia.
    + cbn [seq map]. now rewrite app_nil_r.
  - destruct (Z.ltb_spec (Z.of_nat i * (chunk_size - overlap))
                (Z.of_nat (List.length words))) as [Hlt | Hge].
    + replace (Z.of_nat i * (chunk_size - overlap) + (chunk_size - overlap))
        with (Z.of_nat (S i) * (chunk_size - overlap)) by lia.
      rewrite IH by lia.
      cbn [seq map]. unfold segment_at at 2.
      now rewrite <- app_assoc.
    + assert (i < segment_count (List.length words) (chunk_size - overlap))%nat
        as Hi by lia.
      apply segment_count_spec in Hi; lia.
Qed.

Lemma chunk_loop_segments_of (fuel : nat) :
  (List.length words < fuel)%nat ->
  chunk_loop fuel words chunk_size overlap (mkChunk 0 [])
  = Some (Ok (segments_of words chunk_size overlap)).
Proof.
  intros Hfuel.
  pose proof (segment_count_le (List.length words) (chunk_size - overlap)
                ltac:(lia)) as Hle.
  change (mkChunk 0 []) with (mkChunk (Z.of_nat 0 * (chunk_size - overlap)) []).
  rewrite (chunk_loop_closed_form
             (segment_count (List.length words) (chunk_size - overlap)))
    by lia.
  reflexivity.
Qed.

(** The words of segment [i], when the words of the text are words. *)
Lemma split_segment_at (i : nat) :
  Forall is_word words ->
  split (segment_at words chunk_size overlap i)
  = firstn (Z.to_nat chunk_size)
      (skipn (i * Z.to_nat (chunk_size - overlap)) words).
Proof.
  intros Hwords. unfold segment_at.
  rewrite split_join by now apply Forall_slice.
  rewrite slice_nonneg by nia.
  f_equal; [f_equal; lia | f_equal; nia].
Qed.

Lemma nth_error_segments_of (i : nat) (seg : string) :
  nth_error (segments_of words chunk_size overlap) i = Some seg ->
  seg = segment_at words chunk_size overlap i
  /\ Z.of_nat i * (chunk_size - overlap) < Z.of_nat (List.length words).
Proof.
  unfold segments_of. intros H.
  assert (Hi : (i < segment_count (List.length words) (chunk_size - overlap))%nat).
  { assert (Hn : nth_error
                   (map (segment_at words chunk_size overlap)
                      (seq 0 (segment_count (List.length words)
                                (chunk_size - overlap)))) i <> None)
      by (rewrite H; discriminate).
    apply nth_error_Some in Hn. now rewrite length_map, length_seq in Hn. }
  rewrite nth_error_map, nth_error_seq in H.
  destruct (Nat.ltb_spec i (segment_count (List.length words) (chunk_size - overlap)));
    [|lia].
  cbn in H. injection H as <-.
  split; [reflexivity|].
  apply segment_count_spec in Hi; lia.
Qed.

End SegmenterClosedForm.

(** What [chunk_text] returns with a positive step, whatever the fuel. *)
Lemma chunk_text_result (text : string) (chunk_size overlap : Z)
    (fuel : nat) (segs : list string) :
  0 <= overlap < chunk_size ->
  chunk_text fuel text chunk_size overlap = Some (Ok segs) ->
  segs = segments_of (PyStr.split text) chunk_size overlap.
Proof.
  intros Hcfg Hrun. unfold chunk_text in Hrun.
  pose proof (chunk_loop_mono _ _ _ _ _ _ Hrun
                (fuel + S (List.length (PyStr.split text))) ltac:(lia)) as Hmore.
  rewrite chunk_loop_segments_of in Hmore by (assumption || lia).
  congruence.
Qed.

(** X1: with [0 <= overlap < chunk_size] the call returns the words in
    [n / step] segments, rounded up, for [n] words and
    [step = chunk_size - overlap]; segment [i] is made of the words of index
    [i * step] up to [i * step + chunk_size], joined by single spaces. *)
Theorem chunk_text_segments (text : string) (chunk_size overlap : Z) (fuel : nat) :
  0 <= overlap < chunk_size ->
  (List.length (PyStr.split text) < fuel)%nat ->
  exists segs,
    chunk_text fuel text chunk_size overlap = Some (Ok segs)
    /\ Z.of_nat (List.length segs)
       = (Z.of_nat (List.length (PyStr.split text)) + (chunk_size - overlap) - 1)
         / (chunk_size - overlap)
    /\ forall i seg, nth_error segs i = Some seg ->
         PyStr.split seg
         = firstn (Z.to_nat chunk_size)
             (skipn (i * Z.to_nat (chunk_size - overlap)) (PyStr.split text))
         /\ seg = PyStr.join " " (PyStr.split seg).
Proof.
  intros Hcfg Hfuel.
  exists (segments_of (PyStr.split text) chunk_size overlap).
  split; [now apply chunk_loop_segments_of|]. split.
  - unfold segments_of, segment_count.
    rewrite length_map, length_seq, Z2Nat.id; [reflexivity|].
    apply Z.div_pos; lia.
  - intros i seg Hnth.
    apply nth_error_segments_of in Hnth as [-> _]; [|assumption].
    pose proof (PyStrFacts.split_words text) as Hwords.
    split; [now apply split_segment_at|].
    unfold segment_at at 1. f_equal. unfold segment_at.
    symmetry. apply PyStrFacts.split_join. now apply PyStrFacts.Forall_slice.
Qed.

Lemma chunk_text_segments_witness :
  exists segs,
    chunk_text 11 "a b c d e f g h i j" 5 3 = Some (Ok segs)
    /\ Z.of_nat (List.length segs) = 5.
Proof.
  destruct (chunk_text_segments "a b c d e f g h i j" 5 3 11)
    as (segs & Hrun & Hlen & _); [lia | simpl; lia |].
  exists segs. split; [exact Hrun | exact Hlen].
Defined.

(** X2: every segment returned with [0 <= overlap < chunk_size] has at
    least one word and at most [chunk_size] words. *)
Theorem chunk_text_segment_sizes (text : string) (chunk_size overlap : Z)
    (fuel : nat) (segs : list string) :
  0 <= overlap < chunk_size ->
  chunk_text fuel text chunk_size overlap = Some (Ok segs) ->
  Forall (fun seg =>
            (1 <= List.length (PyStr.split seg))%nat
            /\ Z.of_nat (List.length (PyStr.split seg)) <= chunk_size) segs.
Proof.
  intros Hcfg Hrun.
  apply (chunk_text_result _ _ _ _ _ Hcfg) in Hrun. subst segs.
  apply Forall_forall. intros seg Hin.
  apply In_nth_error in Hin as (i & Hnth).
  apply nth_error_segments_of in Hnth as [-> Hi]; [|assumption].
  rewrite split_segment_at by (assumption || apply PyStrFacts.split_words).
  rewrite length_firstn, length_skipn. nia.
Qed.

Lemma chunk_text_segment_sizes_witness :
  Forall (fun seg =>
            (1 <= List.length (PyStr.split seg))%nat
            /\ Z.of_nat (List.length (PyStr.split seg)) <= 5)
    ["a b c d e"; "c d e f g"; "e f g h i"; "g h i j"; "i j"].
Proof.
  apply (chunk_text_segment_sizes "a b c d e f g h i j" 5 3 10);
    [lia | reflexivity].
Defined.

(** X3: when a segment has its [chunk_size] words and another one follows,
    the last [overlap] words of the first are the first [overlap] words of
    the second. *)
Theorem chunk_text_overlap_shared (text : string) (chunk_size overlap : Z)
    (fuel : nat) (segs : list string) (i : nat) (s1 s2 : string) :
  0 <= overlap < chunk_size ->
  chunk_text fuel text chunk_size overlap = Some (Ok segs) ->
  nth_error segs i = Some s1 -> nth_error segs (S i) = Some s2 ->
  Z.of_nat (List.length (PyStr.split s1)) = chunk_size ->
  skipn (Z.to_nat (chunk_size - overlap)) (PyStr.split s1)
  = firstn (Z.to_nat overlap) (PyStr.split s2).
Proof.
  intros Hcfg Hrun H1 H2 Hfull.
  apply (chunk_text_result _ _ _ _ _ Hcfg) in Hrun. subst segs.
  pose proof (PyStrFacts.split_words text) as Hwords.
  apply nth_error_segments_of in H1 as [-> _]; [|assumption].
  apply nth_error_segments_of in H2 as [-> _]; [|assumption].
  rewrite !split_segment_at in * by assumption.
  rewrite skipn_firstn_comm, skipn_skipn, firstn_firstn.
  replace (Z.to_nat (chunk_size - overlap) + i * Z.to_nat (chunk_size - overlap))%nat
    with (S i * Z.to_nat (chunk_size - overlap))%nat by lia.
  replace (Z.to_nat chunk_size - Z.to_nat (chunk_size - overlap))%nat
    with (Z.to_nat overlap) by lia.
  now replace (Nat.min (Z.to_nat overlap) (Z.to_nat chunk_size))
    with (Z.to_nat overlap) by lia.
Qed.

Lemma chunk_text_overlap_shared_witness :
  skipn (Z.to_nat (5 - 3)) (PyStr.split "a b c d e")
  = firstn (Z.to_nat 3) (PyStr.split "c d e f g").
Proof.
  apply (chunk_text_overlap_shared "a b c d e f g h i j" 5 3 10
           ["a b c d e"; "c d e f g"; "e f g h i"; "g h i j"; "i j"] 0);
    [lia | reflexivity | reflexivity | reflexivity | reflexivity].
Defined.

(** X4: a segment of at most [overlap] words brings no new word: its words
    are the words of the segment before it from index
    [chunk_size - overlap] on. *)
Theorem chunk_text_short_segment_is_repeated (text : string) (chunk_size overlap : Z)
    (fuel : nat) (segs : list string) (i : nat) (s1 s2 : string) :
  0 <= overlap < chunk_size ->
  chunk_text fuel text chunk_size overlap = Some (Ok segs) ->
  nth_error segs i = Some s1 -> nth_error segs (S i) = Some s2 ->
  Z.of_nat (List.length (PyStr.split s2)) <= overlap ->
  PyStr.split s2 = skipn (Z.to_nat (chunk_size - overlap)) (PyStr.split s1).
Proof.
  intros Hcfg Hrun H1 H2 Hshort.
  apply (chunk_text_result _ _ _ _ _ Hcfg) in Hrun. subst segs.
  pose proof (PyStrFacts.split_words text) as Hwords.
  apply nth_error_segments_of in H1 as [-> _]; [|assumption].
  apply nth_error_segments_of in H2 as [-> Hi]; [|assumption].
  rewrite !split_segment_at in * by assumption.
  rewrite length_firstn, length_skipn in Hshort.
  rewrite skipn_firstn_comm, skipn_skipn.
  replace (Z.to_nat (chunk_size - overlap) + i * Z.to_nat (chunk_size - overlap))%nat
    with (S i * Z.to_nat (chunk_size - overlap))%nat by lia.
  rewrite !firstn_all2; [reflexivity | |]; rewrite length_skipn; nia.
Qed.

Lemma chunk_text_short_segment_is_repeated_witness :
  PyStr.split "i j" = skipn (Z.to_nat (5 - 3)) (PyStr.split "g h i j").
Proof.
  apply (chunk_text_short_segment_is_repeated "a b c d e f g h i j" 5 3 10
           ["a b c d e"; "c d e f g"; "e f g h i"; "g h i j"; "i j"] 3);
    [lia | reflexivity | reflexivity | reflexivity | simpl; lia].
Defined.

(** X5: a text of at least one and at most [chunk_size - overlap] words
    gives one segment: its words joined by single spaces. *)
Theorem chunk_text_single_segment (text : string) (chunk_size overlap : Z) (fuel : nat) :
  0 <= overlap < chunk_size ->
  (1 <= List.length (PyStr.split text))%nat ->
  Z.of_nat (List.length (PyStr.split text)) <= chunk_size - overlap ->
  (List.length (PyStr.split text) < fuel)%nat ->
  chunk_text fuel text chunk_size overlap
  = Some (Ok [PyStr.join " " (PyStr.split text)]).
Proof.
  intros Hcfg Hone Hfit Hfuel. unfold chunk_text.
  rewrite chunk_loop_segments_of by assumption.
  unfold segments_of.
  replace (segment_count (List.length (PyStr.split text)) (chunk_size - overlap))
    with 1%nat.
  - cbn [seq map]. unfold segment_at.
    rewrite PyStrFacts.slice_nonneg by lia.
    cbn [Z.of_nat Z.mul Z.to_nat skipn].
    rewrite firstn_all2 by lia. reflexivity.
  - unfold segment_count.
    replace ((Z.of_nat (List.length (PyStr.split text)) + (chunk_size - overlap) - 1)
             / (chunk_size - overlap)) with 1; [reflexivity|].
    apply Z.div_unique with
      (r := Z.of_nat (List.length (PyStr.split text)) - 1); lia.
Qed.

Lemma chunk_text_single_segment_witness :
  chunk_text_default 4 "  vendor   risk report " = Some (Ok ["vendor risk report"]).
Proof.
  apply (chunk_text_single_segment "  vendor   risk report " 300 50 4);
    simpl; lia.
Defined.

(** The loop only appends to the segments it has. *)
Lemma chunk_loop_extends (words : list string) (chunk_size overlap : Z) (fuel : nat) :
  forall st segs,
    chunk_loop fuel words chunk_size overlap st = Some (Ok segs) ->
    exists extra, segs = (segments st ++ extra)%list.
Proof.
  induction fuel as [|fuel IH]; intros st segs Hrun; [discriminate|].
  cbn [chunk_loop] in Hrun. unfold chunk_iter in Hrun.
  destruct (start st <? Z.of_nat (List.length words)).
  - apply IH in Hrun as (extra & ->). cbn [segments].
    eexists. now rewrite <- app_assoc.
  - injection Hrun as <-. exists []. now rewrite app_nil_r.
Qed.

(** X6: for every [chunk_size] and [overlap], also with
    [chunk_size <= overlap], the call returns the empty list exactly on a
    text without a word, and then at the first test of the loop. *)
Theorem chunk_text_empty_iff_no_words (text : string) (chunk_size overlap : Z)
    (fuel : nat) :
  chunk_text (S fuel) text chunk_size overlap = Some (Ok [])
  <-> PyStr.split text = [].
Proof.
  unfold chunk_text. split.
  - intros Hrun. cbn [chunk_loop] in Hrun. unfold chunk_iter in Hrun.
    cbn [start segments] in Hrun.
    destruct (Z.ltb_spec 0 (Z.of_nat (List.length (PyStr.split text)))) as [Hlt | Hge].
    + apply chunk_loop_extends in Hrun as (extra & Hextra). discriminate Hextra.
    + destruct (PyStr.split text); [reflexivity | simpl in Hge; lia].
  - intros Hnone. rewrite Hnone. reflexivity.
Qed.

(** ** More on the key normaliser *)

(** The keys that become a field name are those that read as it in lower
    case. *)
Lemma normalize_key_is_field (k f : string) :
  In f canonical_fields -> (normalize_key k = f <-> PyStr.lower k = f).
Proof.
  intros Hf.
  destruct (in_dec string_dec (PyStr.lower k) canonical_fields) as [Hin | Hout].
  - now rewrite (normalize_key_canonical k Hin).
  - rewrite (normalize_key_other k Hout). split; intros E.
    + subst k. exfalso. apply Hout.
      simpl in Hf.
      destruct Hf as [H | [H | [H | [H | [H | []]]]]]; rewrite <- H;
        simpl; tauto.
    + exfalso. apply Hout. now rewrite E.
Qed.

Lemma dict_get_singleton {V : Type} (k k' : string) (v : V) :
  dict_get k [(k', v)] = if String.eqb k' k then Some v else None.
Proof. reflexivity. Qed.

(** X7: after normalisation a field is found under its name whatever the
    case of the key in the record, and when several keys read as the same
    field the last one gives the value. *)
Theorem normalized_field_lookup (d : dict pyval) (f : string) :
  In f canonical_fields ->
  dict_get f (normalize_items d) = dict_get f (rev (lowered_pairs d)).
Proof.
  intros Hf. unfold normalize_items.
  rewrite dict_get_dict_of_pairs. fold (normalized_pairs d).
  unfold normalized_pairs, lowered_pairs.
  induction d as [|[k v] d IH]; [reflexivity|].
  cbn [map rev fst snd]. rewrite !dict_get_app, IH, !dict_get_singleton.
  destruct (dict_get f (rev (map (fun kv => (PyStr.lower (fst kv), snd kv)) d)));
    [reflexivity|].
  destruct (String.eqb_spec (normalize_key k) f) as [E | E];
    destruct (String.eqb_spec (PyStr.lower k) f) as [E' | E']; try reflexivity.
  - apply (normalize_key_is_field k f Hf) in E. contradiction.
  - apply (normalize_key_is_field k f Hf) in E'. contradiction.
Qed.

Lemma normalized_field_lookup_witness :
  dict_get "bias_score"
    (normalize_items [("Bias_Score", PStr "70"); ("Phrase", PStr "x");
                      ("BIAS_SCORE", PInt 80)])
  = Some (PInt 80).
Proof.
  rewrite (normalized_field_lookup _ "bias_score"); [reflexivity|].
  simpl. tauto.
Defined.

(** X8: the records that [normalize_keys] leaves as they are, are those
    whose keys are distinct and already normal. *)
Theorem normalize_items_fixed_iff (d : dict pyval) :
  normalize_items d = d
  <-> NoDup (keys d) /\ Forall (fun k => normalize_key k = k) (keys d).
Proof.
  split.
  - intros Hfix. split.
    + rewrite <- Hfix. apply NoDup_dict_of_pairs.
    + apply Forall_forall. intros k Hk.
      rewrite <- Hfix in Hk. apply keys_dict_of_pairs in Hk.
      rewrite map_map in Hk. cbn [fst] in Hk.
      apply in_map_iff in Hk as ([k0 v0] & <- & _).
      apply normalize_key_idempotent.
  - intros [Hnd Hkeys]. unfold normalize_items.
    fold (normalized_pairs d).
    rewrite normalized_pairs_fixed.
    + now apply dict_of_pairs_distinct.
    + now apply Forall_forall.
Qed.

Lemma In_dict_set {V : Type} (k k' : string) (v v' : V) (d : dict V) :
  In (k', v') (dict_set k v d) -> v' = v \/ In (k', v') d.
Proof.
  induction d as [|[k0 v0] d IH]; simpl.
  - intros [E | []]. left. congruence.
  - destruct (String.eqb k0 k); simpl.
    + intros [E | H]; [left; congruence | right; now right].
    + intros [E | H]; [right; now left|].
      destruct (IH H) as [E | H']; [now left | right; now right].
Qed.

Lemma length_dict_set {V : Type} (k : string) (v : V) (d : dict V) :
  (List.length (dict_set k v d) <= S (List.length d))%nat.
Proof.
  induction d as [|[k0 v0] d IH]; simpl; [lia|].
  destruct (String.eqb k0 k); simpl; lia.
Qed.

Lemma dict_update_values {V : Type} (pairs : list (string * V)) :
  forall (acc : dict V) k v,
    In (k, v) (dict_update pairs acc) ->
    (exists k0, In (k0, v) pairs) \/ In (k, v) acc.
Proof.
  induction pairs as [|[k0 v0] pairs IH]; intros acc k v Hin.
  - now right.
  - rewrite dict_update_cons in Hin.
    apply IH in Hin as [(k1 & H) | Hin].
    + left. exists k1. now right.
    + apply In_dict_set in Hin as [-> | Hin]; [|now right].
      left. exists k0. now left.
Qed.

Lemma length_dict_update {V : Type} (pairs : list (string * V)) :
  forall acc : dict V,
    (List.length (dict_update pairs acc) <= List.length acc + List.length pairs)%nat.
Proof.
  induction pairs as [|[k0 v0] pairs IH]; intros acc; cbn [List.length]; [cbn; lia|].
  rewrite dict_update_cons.
  pose proof (IH (dict_set k0 v0 acc)). pose proof (length_dict_set k0 v0 acc). lia.
Qed.

(** X9: the normalised record has distinct keys, no more entries than the
    record, every key of it is the normal form of a key of the record, and
    every value of it is a value of the record. *)
Theorem normalize_items_entries (d : dict pyval) :
  NoDup (keys (normalize_items d))
  /\ (List.length (normalize_items d) <= List.length d)%nat
  /\ (forall k, In k (keys (normalize_items d)) ->
        exists k0, In k0 (keys d) /\ k = normalize_key k0)
  /\ (forall k v, In (k, v) (normalize_items d) -> exists k0, In (k0, v) d).
Proof.
  unfold normalize_items. repeat split.
  - apply NoDup_dict_of_pairs.
  - unfold dict_of_pairs.
    pose proof (length_dict_update
                  (map (fun kv => (normalize_key (fst kv), snd kv)) d) []) as H.
    now rewrite length_map in H.
  - intros k Hk. apply keys_dict_of_pairs in Hk.
    rewrite map_map in Hk. cbn [fst] in Hk.
    apply in_map_iff in Hk as ([k0 v0] & <- & Hin).
    exists k0. split; [|reflexivity].
    unfold keys. apply in_map_iff. now exists (k0, v0).
  - intros k v Hin. unfold dict_of_pairs in Hin.
    apply dict_update_values in Hin as [(k1 & H) | []].
    apply in_map_iff in H as ([k0 v0] & E & Hin).
    cbn [fst snd] in E. injection E as _ <-.
    now exists k0.
Qed.

(** ** More on the aggregator *)

(** The loop over records as four comprehensions. *)
Lemma process_items_report (items : list (dict pyval)) :
  forall st,
    process_items (map PDict items) st
    = Ok (mkReport
            (all_scores st ++ convertible_scores items)
            (all_categories st ++ tallied_categories items)
            (followups st ++ follow_up_lines items)
            (page st ++ widgets_of items))%list.
Proof.
  induction items as [|d items IH]; intros st.
  - cbn. rewrite !app_nil_r. now destruct st.
  - cbn [map process_items convertible_scores tallied_categories
           follow_up_lines widgets_of flat_map].
    destruct (is_error_record d) eqn:Herr.
    + rewrite process_item_error by assumption. cbn [bind].
      rewrite IH. unfold show. cbn [all_scores all_categories followups page].
      cbn [app]. now rewrite <- app_assoc.
    + rewrite process_item_issue
        by (unfold is_error_record in Herr; now destruct (dict_get "error" d)).
      cbn [bind]. rewrite IH.
      cbn [all_scores all_categories followups page].
      fold (category_of d) (recommendation_of d).
      f_equal. f_equal.
      * destruct (py_int (score_of d)); [now rewrite <- app_assoc | reflexivity].
      * destruct (ne_str (category_of d) "N/A");
          [now rewrite <- app_assoc | reflexivity].
      * destruct (ne_str (recommendation_of d) "N/A");
          [now rewrite <- app_assoc | reflexivity].
      * now rewrite <- app_assoc.
Qed.

Lemma all_dicts (items : list pyval) :
  forallb is_dict items = true -> exists ds, items = map PDict ds.
Proof.
  induction items as [|v items IH]; intros H.
  - now exists [].
  - cbn in H. apply andb_prop in H as [Hv H].
    destruct (IH H) as (ds & ->).
    destruct v; try discriminate Hv. now exists (d :: ds).
Qed.

(** The body of the loop returns on dicts only. *)
Lemma process_item_non_dict (v : pyval) (st : report) :
  is_dict v = false ->
  process_item v st
  = Raise (match v with
           | PStr _ | PList _ => AttributeError
           | _ => TypeError
           end).
Proof.
  intros Hv. destruct v; try reflexivity; try discriminate Hv;
    unfold process_item; cbn [py_in bind];
    match goal with |- context [if ?b then _ else _] => destruct b end;
    reflexivity.
Qed.

Lemma length_flat_map_le {A B : Type} (p : A -> bool) (g : A -> list B)
    (items : list A) :
  (forall d, (List.length (g d) <= if p d then 1 else 0)%nat) ->
  (List.length (flat_map g items) <= count_of p items)%nat.
Proof.
  intros Hg. unfold count_of.
  induction items as [|d items IH]; cbn [flat_map filter]; [reflexivity|].
  rewrite length_app. specialize (Hg d).
  destruct (p d); cbn [List.length]; lia.
Qed.

Lemma count_of_app {A : Type} (p : A -> bool) (l l' : list A) :
  count_of p (l ++ l')%list = (count_of p l + count_of p l')%nat.
Proof. unfold count_of. now rewrite filter_app, length_app. Qed.

Lemma count_of_widgets (items : list (dict pyval)) :
  count_of is_card (widgets_of items)
  = count_of (fun d => negb (is_error_record d)) items
  /\ count_of is_error_box (widgets_of items) = count_of is_error_record items.
Proof.
  unfold count_of.
  induction items as [|d items [IH1 IH2]]; [split; reflexivity|].
  cbn [widgets_of flat_map filter]. fold (widgets_of items).
  rewrite !filter_app, !length_app, IH1, IH2.
  destruct (is_error_record d); split; reflexivity.
Qed.

(** X10: the loop over the records of one segment only appends to the
    three lists and to the page.  An issue shows exactly one card and adds
    at most one score, one category and one follow-up; a record with an
    [error] key shows exactly one error box and adds nothing to the three
    lists. *)
Theorem process_results_counts (items : list (dict pyval)) (st : report) :
  exists st' scores categories lines,
    process_results (PList (map PDict items)) st = Ok st'
    /\ all_scores st' = (all_scores st ++ scores)%list
    /\ all_categories st' = (all_categories st ++ categories)%list
    /\ followups st' = (followups st ++ lines)%list
    /\ (List.length scores
        <= count_of (fun d => negb (is_error_record d)) items)%nat
    /\ (List.length categories
        <= count_of (fun d => negb (is_error_record d)) items)%nat
    /\ (List.length lines
        <= count_of (fun d => negb (is_error_record d)) items)%nat
    /\ count_of is_card (page st')
       = (count_of is_card (page st)
          + count_of (fun d => negb (is_error_record d)) items)%nat
    /\ count_of is_error_box (page st')
       = (count_of is_error_box (page st) + count_of is_error_record items)%nat.
Proof.
  eexists. exists (convertible_scores items), (tallied_categories items),
    (follow_up_lines items).
  split; [apply process_items_report|].
  cbn [all_scores all_categories followups page].
  destruct (count_of_widgets items) as [Hcards Hboxes].
  split; [reflexivity|]. split; [reflexivity|]. split; [reflexivity|].
  split; [|split; [|split; [|split]]].
  - apply length_flat_map_le. intros d.
    destruct (is_error_record d); cbn [negb List.length]; [lia|].
    destruct (py_int (score_of d)); cbn [List.length]; lia.
  - apply length_flat_map_le. intros d.
    destruct (is_error_record d); cbn [negb List.length]; [lia|].
    destruct (ne_str (category_of d) "N/A"); cbn [List.length]; lia.
  - apply length_flat_map_le. intros d.
    destruct (is_error_record d); cbn [negb List.length]; [lia|].
    destruct (ne_str (recommendation_of d) "N/A"); cbn [List.length]; lia.
  - now rewrite count_of_app, Hcards.
  - now rewrite count_of_app, Hboxes.
Qed.

(** X11: the loop raises exactly when one of the items is not a dict:
    [TypeError] on [None], a boolean or a number, which have no [in], and
    [AttributeError] on a string or a list, which have no [get]. *)
Theorem process_items_returns_iff_dicts (items : list pyval) (st : report) :
  ((exists st', process_items items st = Ok st') <-> forallb is_dict items = true)
  /\ (forall v st0, is_dict v = false ->
        process_item v st0
        = Raise (match v with
                 | PStr _ | PList _ => AttributeError
                 | _ => TypeError
                 end)).
Proof.
  split; [|exact process_item_non_dict].
  split.
  - revert st. induction items as [|v items IH]; intros st (st' & Hrun);
      [reflexivity|].
    cbn [process_items forallb] in *.
    destruct (is_dict v) eqn:Hv.
    + destruct (process_item v st) as [st1|] eqn:H1; [|discriminate].
      cbn [bind] in Hrun. cbn. apply (IH st1). now exists st'.
    + rewrite process_item_non_dict in Hrun by assumption. discriminate.
  - intros H. apply all_dicts in H as (ds & ->).
    eexists. apply process_items_report.
Qed.

(** Sums and means *)

Lemma sum_scores_bounds (lo hi : Z) (scores : list Z) :
  Forall (fun z => lo <= z <= hi) scores ->
  Z.of_nat (List.length scores) * lo <= sum_scores scores
  <= Z.of_nat (List.length scores) * hi.
Proof.
  rewrite sum_scores_fold_right.
  induction 1 as [|z scores Hz _ IH]; [cbn; lia|].
  cbn [List.length fold_right]. lia.
Qed.

Lemma Qdiv_bounds (s n lo hi : Z) :
  0 < n -> n * lo <= s <= n * hi ->
  (inject_Z lo <= inject_Z s / inject_Z n)%Q
  /\ (inject_Z s / inject_Z n <= inject_Z hi)%Q.
Proof.
  intros Hn Hs. destruct n as [|p|p]; try lia.
  unfold Qle, Qdiv, Qmult, Qinv, inject_Z. simpl.
  split; nia.
Qed.

(** X12: the overall score lies between the least and the greatest score.
    When every score is between [lo] and [hi], two integers that floats
    hold exactly, the division returns and its float is between them;
    scores from 0 to 100 give a value inside the range of the gauge. *)
Theorem overall_score_between (lo hi : Z) (scores : list Z) :
  scores <> [] ->
  Forall (fun z => lo <= z <= hi) scores ->
  - 2 ^ 53 <= lo -> hi <= 2 ^ 53 ->
  exists f,
    overall_score scores = Some (Ok f)
    /\ (inject_Z lo <= float_value f)%Q /\ (float_value f <= inject_Z hi)%Q.
Proof.
  intros Hne Hall Hlo Hhi.
  pose proof (sum_scores_bounds lo hi scores Hall) as Hsum.
  assert (Hn : 0 < Z.of_nat (List.length scores))
    by (destruct scores; [contradiction | cbn [List.length]; lia]).
  assert (Hthr : 2 ^ 53 < 2 ^ 1024 - 2 ^ 970) by reflexivity.
  assert (Hlt : Z.abs (sum_scores scores)
                < (2 ^ 1024 - 2 ^ 970) * Z.of_nat (List.length scores)) by nia.
  destruct (proj1 (overall_score_cases scores Hne) Hlt) as (f & Hf & _).
  exists f. split; [exact Hf|].
  destruct scores as [|z scores]; [contradiction|].
  rewrite overall_score_cons in Hf. apply some_eq in Hf.
  assert (Hz : lo <= hi) by (inversion Hall; lia).
  apply (int_true_div_between _ _ lo hi f Hf); [lia | lia |].
  apply Qdiv_bounds; assumption.
Qed.

Lemma overall_score_between_witness :
  exists f,
    overall_score [10; 20] = Some (Ok f)
    /\ (inject_Z 0 <= float_value f)%Q /\ (float_value f <= inject_Z 100)%Q.
Proof.
  apply (overall_score_between 0 100 [10; 20]);
    [discriminate | repeat constructor; lia | lia | lia].
Defined.

Lemma sum_scores_permutation (l l' : list Z) :
  Permutation l l' -> sum_scores l = sum_scores l'.
Proof.
  rewrite !sum_scores_fold_right.
  induction 1; cbn [fold_right]; lia.
Qed.

(** X13: the overall score does not depend on the order of the scores, so
    not on the order in which the segments were selected. *)
Theorem avg_score_permutation (l l' : list Z) :
  Permutation l l' -> avg_score l = avg_score l'.
Proof.
  intros Hperm.
  pose proof (sum_scores_permutation _ _ Hperm) as Hsum.
  pose proof (Permutation_length Hperm) as Hlen.
  destruct l as [|z l], l' as [|z' l']; try discriminate Hlen; [reflexivity|].
  rewrite !avg_score_cons. now rewrite Hsum, Hlen.
Qed.

Lemma avg_score_permutation_witness :
  avg_score [10; 20; 90] = avg_score [90; 10; 20].
Proof.
  apply avg_score_permutation.
  apply Permutation_sym, (Permutation_cons_app [10; 20] [] 90).
  now rewrite app_nil_r.
Defined.

(** The float of the overall score does not depend on the order either. *)
Lemma overall_score_permutation (l l' : list Z) :
  Permutation l l' -> overall_score l = overall_score l'.
Proof.
  intros Hperm.
  pose proof (sum_scores_permutation _ _ Hperm) as Hsum.
  pose proof (Permutation_length Hperm) as Hlen.
  destruct l as [|z l], l' as [|z' l']; try discriminate Hlen; [reflexivity|].
  rewrite !overall_score_cons. now rewrite Hsum, Hlen.
Qed.

(** ** More on the parsing stage *)

Lemma mapM_normalize_ok (items : list pyval) :
  forall l, mapM normalize_keys items = Ok l ->
    exists ds, items = map PDict ds
               /\ l = map (fun d => PDict (normalize_items d)) ds.
Proof.
  induction items as [|v items IH]; intros l H.
  - injection H as <-. now exists [].
  - cbn [mapM] in H.
    destruct v; try discriminate H. cbn [normalize_keys bind] in H.
    destruct (mapM normalize_keys items) as [l'|] eqn:E; [|discriminate H].
    injection H as <-.
    destruct (IH l' eq_refl) as (ds & -> & ->).
    now exists (d :: ds).
Qed.

Lemma mapM_normalize_raise (items : list pyval) (e : exn) :
  mapM normalize_keys items = Raise e ->
  e = AttributeError /\ exists v, In v items /\ is_dict v = false.
Proof.
  induction items as [|v items IH]; intros H; [discriminate|].
  cbn [mapM] in H.
  destruct (is_dict v) eqn:Hv.
  - destruct v; try discriminate Hv. cbn [normalize_keys bind] in H.
    destruct (mapM normalize_keys items) as [l'|e'] eqn:E; [discriminate H|].
    injection H as <-.
    destruct (IH eq_refl) as (He & v & Hin & Hnd).
    split; [exact He|]. exists v. split; [now right | exact Hnd].
  - split.
    + destruct v; try discriminate Hv; cbn in H; congruence.
    + exists v. split; [now left | exact Hv].
Qed.

Lemma find_from_present (c : ascii) (s : string) :
  forall i, occurs c s = true -> i <= PyStr.find_from i c s.
Proof.
  induction s as [|d s IH]; intros i H; [discriminate|].
  cbn in *. destruct (Ascii.eqb d c); [lia|].
  specialize (IH (i + 1) H). lia.
Qed.

(** A slice that ends where it starts, or before, is empty. *)
Lemma str_slice_empty (s : string) (a b : Z) :
  0 <= b <= a -> PyStr.str_slice s a b = EmptyString.
Proof.
  intros Hab. unfold PyStr.str_slice, PyStr.slice, PyStr.clamp_index.
  destruct (Z.ltb_spec a 0); [lia|]. destruct (Z.ltb_spec b 0); [lia|].
  replace (Z.to_nat (Z.min b _ - Z.min a _)) with 0%nat by lia.
  reflexivity.
Qed.

Section ParsingFacts.

Variable json_loads : string -> result pyval.
Variable chat : string -> string.

(** What the last line of [analyze_bias] returns. *)
Lemma normalize_parsed_ok (parsed v : pyval) :
  normalize_parsed parsed = Ok v ->
  (is_list parsed = false /\ v = parsed)
  \/ exists ds, parsed = PList (map PDict ds)
                /\ v = PList (map (fun d => PDict (normalize_items d)) ds).
Proof.
  intros H. destruct parsed; try (left; split; [reflexivity | now injection H]).
  right. cbn [normalize_parsed] in H.
  destruct (mapM normalize_keys l) as [l'|] eqn:E; [|discriminate H].
  injection H as <-.
  destruct (mapM_normalize_ok l l' E) as (ds & -> & ->). now exists ds.
Qed.

Lemma normalize_parsed_raise (parsed : pyval) (e : exn) :
  normalize_parsed parsed = Raise e ->
  e = AttributeError
  /\ exists items v, parsed = PList items /\ In v items /\ is_dict v = false.
Proof.
  intros H. destruct parsed; try discriminate H.
  cbn [normalize_parsed] in H.
  destruct (mapM normalize_keys l) as [l'|e'] eqn:E; [discriminate H|].
  injection H as <-.
  destruct (mapM_normalize_raise l e' E) as (He & v & Hin & Hv).
  split; [exact He|]. now exists l, v.
Qed.

(** The value that [parse_response] normalises, when it returns one that
    is no error record of its own. *)
Lemma parse_response_cases (raw_output : string) :
  (exists parsed,
     parse_response json_loads raw_output = normalize_parsed parsed
     /\ (json_loads raw_output = Ok parsed
         \/ json_loads (PyStr.str_slice raw_output (PyStr.find "[" raw_output)
                          (PyStr.rfind "]" raw_output + 1)) = Ok parsed))
  \/ exists kind,
       parse_response json_loads raw_output = Ok (error_record kind raw_output).
Proof.
  unfold parse_response.
  destruct (json_loads raw_output) as [parsed|e] eqn:Hfull.
  - left. exists parsed. split; [reflexivity | now left].
  - destruct (negb (PyStr.find "[" raw_output =? -1)
              && negb (PyStr.rfind "]" raw_output + 1 =? -1)).
    + destruct (json_loads (PyStr.str_slice _ _ _)) as [parsed|e'] eqn:Hpart.
      * left. exists parsed. split; [reflexivity | now right].
      * right. now eexists.
    + right. now eexists.
Qed.

(** X14: the parsing stage raises in one case only: the reply, or its
    bracketed part when the reply does not decode, decodes to a list with an
    item that is not an object; the exception is then [AttributeError]. *)
Theorem parse_response_raises_only_on_non_object (raw_output : string) (e : exn) :
  parse_response json_loads raw_output = Raise e ->
  e = AttributeError
  /\ exists items v,
       In v items /\ is_dict v = false
       /\ (json_loads raw_output = Ok (PList items)
           \/ json_loads (PyStr.str_slice raw_output (PyStr.find "[" raw_output)
                            (PyStr.rfind "]" raw_output + 1)) = Ok (PList items)).
Proof.
  intros H.
  destruct (parse_response_cases raw_output) as [(parsed & Hp & Hsrc) | (kind & Hk)].
  - rewrite Hp in H.
    apply normalize_parsed_raise in H as (He & items & v & -> & Hin & Hv).
    split; [exact He|]. now exists items, v.
  - rewrite Hk in H. discriminate.
Qed.

(** X15: a reply with an opening bracket that decodes neither as a whole
    nor between its brackets gives the single error record [Parse error]
    with the reply. *)
Theorem parse_response_parse_error (raw_output : string) (e1 e2 : exn) :
  occurs "[" raw_output = true ->
  json_loads raw_output = Raise e1 ->
  json_loads (PyStr.str_slice raw_output (PyStr.find "[" raw_output)
                (PyStr.rfind "]" raw_output + 1)) = Raise e2 ->
  parse_response json_loads raw_output
  = Ok (PList [PDict [("error", PStr "Parse error");
                      ("raw_output", PStr raw_output)]]).
Proof.
  intros Hopen Hfull Hpart. unfold parse_response.
  rewrite Hfull, Hpart.
  pose proof (find_from_present "[" raw_output 0 Hopen) as Hfind.
  pose proof (FindFacts.rfind_lower_bound "]" raw_output) as Hrfind.
  fold (PyStr.find "[" raw_output) in Hfind.
  destruct (Z.eqb_spec (PyStr.find "[" raw_output) (-1)); [lia|].
  destruct (Z.eqb_spec (PyStr.rfind "]" raw_output + 1) (-1)); [lia|].
  reflexivity.
Qed.

(** X16: when the reply does not decode and has an opening bracket but no
    closing bracket after it, the text given to the decoder is empty: with a
    decoder that refuses the empty text the result is [Parse error], not
    [No JSON detected]. *)
Theorem parse_response_unclosed_bracket (raw_output : string) (e1 e2 : exn) :
  occurs "[" raw_output = true ->
  PyStr.rfind "]" raw_output < PyStr.find "[" raw_output ->
  json_loads raw_output = Raise e1 ->
  json_loads EmptyString = Raise e2 ->
  PyStr.str_slice raw_output (PyStr.find "[" raw_output)
    (PyStr.rfind "]" raw_output + 1) = EmptyString
  /\ parse_response json_loads raw_output
     = Ok (PList [PDict [("error", PStr "Parse error");
                         ("raw_output", PStr raw_output)]]).
Proof.
  intros Hopen Horder Hfull Hempty.
  pose proof (FindFacts.rfind_lower_bound "]" raw_output) as Hrfind.
  assert (Hslice : PyStr.str_slice raw_output (PyStr.find "[" raw_output)
                     (PyStr.rfind "]" raw_output + 1) = EmptyString)
    by (apply str_slice_empty; lia).
  split; [exact Hslice|].
  unfold parse_response. rewrite Hfull, Hslice, Hempty.
  pose proof (find_from_present "[" raw_output 0 Hopen) as Hfind.
  fold (PyStr.find "[" raw_output) in Hfind.
  destruct (Z.eqb_spec (PyStr.find "[" raw_output) (-1)); [lia|].
  destruct (Z.eqb_spec (PyStr.rfind "]" raw_output + 1) (-1)); [lia|].
  reflexivity.
Qed.

(** The loop takes what the parsing stage returns. *)
Lemma process_results_on_parsed (raw_output : string) (v : pyval) (st : report) :
  parse_response json_loads raw_output = Ok v ->
  exists st', process_results v st = Ok st'.
Proof.
  intros H.
  destruct (parse_response_cases raw_output) as [(parsed & Hp & _) | (kind & Hk)].
  - rewrite Hp in H.
    apply normalize_parsed_ok in H as [[Hnl ->] | (ds & -> & ->)].
    + exists st. now destruct parsed.
    + rewrite <- (map_map normalize_items PDict).
      eexists. apply process_items_report.
  - rewrite Hk in H. injection H as <-.
    eexists. apply (process_items_report [_]).
Qed.

(** X17: whatever [analyze_bias] returns, the loop of the main script
    takes without raising: the value is a list of dicts, or no list at all
    and passed over. *)
Theorem process_results_accepts_analyze_bias (segment : string) (v : pyval)
    (st : report) :
  analyze_bias json_loads chat segment = Ok v ->
  (exists st', process_results v st = Ok st')
  /\ (is_list v = false \/ exists ds, v = PList (map PDict ds)).
Proof.
  intros H. split; [exact (process_results_on_parsed _ v st H)|].
  unfold analyze_bias in H.
  destruct (parse_response_cases (PyStr.strip (chat (bias_prompt segment))))
    as [(parsed & Hp & _) | (kind & Hk)].
  - rewrite Hp in H.
    apply normalize_parsed_ok in H as [[Hnl ->] | (ds & -> & ->)].
    + now left.
    + right. exists (map normalize_items ds). now rewrite map_map.
  - rewrite Hk in H. injection H as <-. right. now eexists [_].
Qed.

(** X18: a reply that decodes to a value that is no list, a single object
    for one, is returned as it is and then passed over: but for the header
    of the segment, the report stays as it was. *)
Theorem analysis_skips_non_list
    (segs : list string) (idx : nat) (rest : list nat) (st : report)
    (segment : string) (v : pyval) :
  nth_error segs idx = Some segment ->
  json_loads (PyStr.strip (chat (bias_prompt segment))) = Ok v ->
  is_list v = false ->
  analyze_bias json_loads chat segment = Ok v
  /\ analysis_loop json_loads chat segs (idx :: rest) st
     = analysis_loop json_loads chat segs rest (show [SegmentHeader idx] st).
Proof.
  intros Hseg Hloads Hv.
  assert (Hres : analyze_bias json_loads chat segment = Ok v).
  { unfold analyze_bias, parse_response. rewrite Hloads. now destruct v. }
  split; [exact Hres|].
  cbn [analysis_loop]. rewrite Hseg. cbn [bind]. rewrite Hres. cbn [bind].
  now destruct v.
Qed.


End ParsingFacts.

(** ** Numbers in decimal *)

Lemma digit_char_spec (d : Z) :
  0 <= d < 10 ->
  is_digit (digit_char d) = true /\ digit_value (digit_char d) = d.
Proof.
  intros Hd.
  assert (H : d = 0 \/ d = 1 \/ d = 2 \/ d = 3 \/ d = 4 \/ d = 5 \/ d = 6
              \/ d = 7 \/ d = 8 \/ d = 9) by lia.
  repeat (destruct H as [-> | H]; [split; reflexivity|]).
  subst d. split; reflexivity.
Qed.

Lemma is_digit_not_special (c : ascii) :
  is_digit c = true ->
  PyStr.isspace c = false /\ Ascii.eqb c ":" = false.
Proof.
  destruct c as [[] [] [] [] [] [] [] []]; intros H;
    try discriminate H; split; reflexivity.
Qed.

Lemma all_digits_app (a b : string) :
  all_digits (a ++ b) = all_digits a && all_digits b.
Proof.
  induction a as [|c a IH]; cbn; [reflexivity|]. now rewrite IH, andb_assoc.
Qed.

Lemma all_digits_no_space (s : string) : all_digits s = true -> no_space s = true.
Proof.
  induction s as [|c s IH]; cbn; [reflexivity|].
  intros H. apply andb_prop in H as [Hc Hs].
  apply is_digit_not_special in Hc as [-> _]. now rewrite IH.
Qed.

(** Reading digits: the number read so far is shifted and the digits are
    added. *)
Lemma digits_of_small (fuel : nat) (n : Z) (rest : string) :
  0 <= n < 10 ->
  exists ds k,
    digits_of (S fuel) n rest = ds ++ rest
    /\ all_digits ds = true /\ ds <> EmptyString /\ 0 <= k
    /\ forall acc after tail,
         int_digits acc after (ds ++ tail) = int_digits (acc * 10 ^ k + n) true tail.
Proof.
  intros Hn. cbn [digits_of].
  destruct (Z.ltb_spec n 10) as [_ | Hbig]; [|lia].
  exists (String (digit_char (n mod 10)) EmptyString), 1.
  rewrite Z.mod_small by lia.
  destruct (digit_char_spec n Hn) as [Hd Hv].
  split; [reflexivity|]. split; [cbn [all_digits]; now rewrite Hd|].
  split; [discriminate|]. split; [lia|].
  intros acc after tail. cbn [append int_digits]. rewrite Hd, Hv. f_equal. lia.
Qed.

Lemma digits_of_read (fuel : nat) :
  forall n rest, 0 <= n < 10 ^ Z.of_nat (S fuel) ->
    exists ds k,
      digits_of (S fuel) n rest = ds ++ rest
      /\ all_digits ds = true /\ ds <> EmptyString /\ 0 <= k
      /\ forall acc after tail,
           int_digits acc after (ds ++ tail) = int_digits (acc * 10 ^ k + n) true tail.
Proof.
  induction fuel as [|fuel IH]; intros n rest Hn.
  - apply digits_of_small. cbn in Hn. lia.
  - destruct (Z.ltb_spec n 10) as [Hsmall | Hbig];
      [apply digits_of_small; lia|].
    assert (Hq : 0 <= n / 10 < 10 ^ Z.of_nat (S fuel)).
    { rewrite (Nat2Z.inj_succ (S fuel)), Z.pow_succ_r in Hn by lia.
      split; [apply Z.div_pos; lia | apply Z.div_lt_upper_bound; lia]. }
    destruct (IH (n / 10) (String (digit_char (n mod 10)) rest) Hq)
      as (ds & k & Hds & Hall & Hne & Hk & Hread).
    pose proof (Z.mod_pos_bound n 10 ltac:(lia)) as Hmod.
    destruct (digit_char_spec (n mod 10) Hmod) as [Hd Hv].
    exists (ds ++ String (digit_char (n mod 10)) EmptyString), (k + 1).
    repeat split.
    + change (digits_of (S (S fuel)) n rest)
        with (if n <? 10 then String (digit_char (n mod 10)) rest
              else digits_of (S fuel) (n / 10) (String (digit_char (n mod 10)) rest)).
      destruct (Z.ltb_spec n 10); [lia|].
      rewrite Hds. now rewrite PyStrFacts.append_assoc.
    + rewrite all_digits_app, Hall. cbn [all_digits]. now rewrite Hd.
    + destruct ds; discriminate.
    + lia.
    + intros acc after tail.
      rewrite PyStrFacts.append_assoc. cbn [append].
      rewrite Hread. cbn [int_digits]. rewrite Hd, Hv.
      f_equal. rewrite Z.pow_add_r, Z.pow_1_r by lia.
      pose proof (Z.div_mod n 10 ltac:(lia)). lia.
Qed.

Lemma digits_fuel (n : Z) : 0 <= n -> n < 10 ^ Z.of_nat (S (Z.to_nat (Z.log2 n))).
Proof.
  intros Hn.
  rewrite Nat2Z.inj_succ, Z2Nat.id by apply Z.log2_nonneg.
  destruct (Z.eq_dec n 0) as [-> | Hpos]; [cbn; lia|].
  pose proof (Z.log2_spec n ltac:(lia)) as [_ Hlog].
  apply Z.lt_le_trans with (1 := Hlog).
  apply Z.pow_le_mono_l. pose proof (Z.log2_nonneg n). lia.
Qed.

(** [str(n)] for [n >= 0]: digits only, at least one, that read back as
    [n]. *)
Lemma str_of_int_nonneg (n : Z) :
  0 <= n ->
  all_digits (str_of_int n) = true /\ str_of_int n <> EmptyString
  /\ int_digits 0 false (str_of_int n) = Some n.
Proof.
  intros Hn. unfold str_of_int.
  destruct (Z.ltb_spec n 0); [lia|].
  destruct (digits_of_read (Z.to_nat (Z.log2 n)) n EmptyString
              (conj Hn (digits_fuel n Hn)))
    as (ds & k & Hds & Hall & Hne & Hk & Hread).
  rewrite PyStrFacts.append_nil_r in Hds. rewrite Hds.
  repeat split; try assumption.
  specialize (Hread 0 false EmptyString).
  rewrite PyStrFacts.append_nil_r in Hread. rewrite Hread. reflexivity.
Qed.

Lemma lstrip_no_space (s : string) : no_space s = true -> PyStr.lstrip s = s.
Proof.
  destruct s as [|c s]; cbn; [reflexivity|].
  intros H. apply andb_prop in H as [Hc _].
  apply negb_true_iff in Hc. now rewrite Hc.
Qed.

Lemma rstrip_no_space (s : string) : no_space s = true -> PyStr.rstrip s = s.
Proof.
  induction s as [|c s IH]; cbn; [reflexivity|].
  intros H. apply andb_prop in H as [Hc Hs].
  apply negb_true_iff in Hc. rewrite IH, Hc by assumption.
  now destruct s.
Qed.

Lemma is_digit_not_int_space (c : ascii) : is_digit c = true -> int_space c = false.
Proof.
  destruct c as [[] [] [] [] [] [] [] []]; intros H;
    try discriminate H; reflexivity.
Qed.

Lemma skip_int_space_digits (s : string) :
  all_digits s = true -> skip_int_space s = s.
Proof.
  destruct s as [|c s]; cbn; [reflexivity|].
  intros H. apply andb_prop in H as [Hc _].
  now rewrite (is_digit_not_int_space c Hc).
Qed.

Lemma drop_int_space_right_digits (s : string) :
  all_digits s = true -> drop_int_space_right s = s.
Proof.
  induction s as [|c s IH]; cbn; [reflexivity|].
  intros H. apply andb_prop in H as [Hc Hs].
  rewrite IH, (is_digit_not_int_space c Hc) by assumption.
  now destruct s.
Qed.

(** [int(s)] on digits. *)
Lemma int_of_str_digits (s : string) :
  all_digits s = true ->
  int_of_str s = match int_digits 0 false s with
                 | Some z => Ok z
                 | None => Raise ValueError
                 end.
Proof.
  intros Hall. unfold int_of_str.
  rewrite skip_int_space_digits, drop_int_space_right_digits by assumption.
  destruct s as [|c s]; [reflexivity|].
  cbn in Hall. apply andb_prop in Hall as [Hc _].
  destruct c as [[] [] [] [] [] [] [] []]; try discriminate Hc; reflexivity.
Qed.

(** [int(s)] on a minus sign and digits. *)
Lemma int_of_str_minus_digits (s : string) :
  all_digits s = true -> s <> EmptyString ->
  int_of_str (String "-" s)
  = match int_digits 0 false s with
    | Some z => Ok (- z)
    | None => Raise ValueError
    end.
Proof.
  intros Hall Hne. unfold int_of_str.
  cbn [skip_int_space]. change (int_space "-") with false. cbv iota.
  cbn [drop_int_space_right]. rewrite drop_int_space_right_digits by assumption.
  destruct s as [|c s]; [contradiction|].
  now destruct (int_digits 0 false (String c s)).
Qed.

(** The number of digits [str] writes for [n >= 0]: one for a number below
    10, and otherwise the [c] with [10 ^ (c - 1) <= n < 10 ^ c]. *)
Lemma digits_of_count (fuel : nat) :
  forall n rest, 0 <= n < 10 ^ Z.of_nat (S fuel) ->
    exists c,
      count_digits (digits_of (S fuel) n rest) = c + count_digits rest
      /\ 1 <= c /\ n < 10 ^ c /\ (n < 10 -> c = 1) /\ (10 <= n -> 10 ^ (c - 1) <= n).
Proof.
  assert (Hsmall : forall fuel n rest, 0 <= n < 10 ->
            exists c,
              count_digits (digits_of (S fuel) n rest) = c + count_digits rest
              /\ 1 <= c /\ n < 10 ^ c /\ (n < 10 -> c = 1)
              /\ (10 <= n -> 10 ^ (c - 1) <= n)).
  { intros f n rest Hn. exists 1. cbn [digits_of].
    destruct (Z.ltb_spec n 10) as [_ | Hbig]; [|lia].
    destruct (digit_char_spec (n mod 10) (Z.mod_pos_bound n 10 ltac:(lia)))
      as [Hd _].
    cbn [count_digits]. rewrite Hd.
    split; [reflexivity|]. split; [lia|]. split; [lia|]. split; [reflexivity | lia]. }
  induction fuel as [|fuel IH]; intros n rest Hn.
  - apply Hsmall. cbn in Hn. lia.
  - destruct (Z.ltb_spec n 10) as [Hlt | Hbig]; [apply Hsmall; lia|].
    assert (Hq : 0 <= n / 10 < 10 ^ Z.of_nat (S fuel)).
    { rewrite (Nat2Z.inj_succ (S fuel)), Z.pow_succ_r in Hn by lia.
      split; [apply Z.div_pos; lia | apply Z.div_lt_upper_bound; lia]. }
    destruct (IH (n / 10) (String (digit_char (n mod 10)) rest) Hq)
      as (c & Hcount & Hc & Hup & Hone & Hdown).
    destruct (digit_char_spec (n mod 10) (Z.mod_pos_bound n 10 ltac:(lia)))
      as [Hd _].
    exists (c + 1).
    change (digits_of (S (S fuel)) n rest)
      with (if n <? 10 then String (digit_char (n mod 10)) rest
            else digits_of (S fuel) (n / 10) (String (digit_char (n mod 10)) rest)).
    destruct (Z.ltb_spec n 10); [lia|].
    rewrite Hcount. cbn [count_digits]. rewrite Hd.
    pose proof (Z.div_mod n 10 ltac:(lia)) as Hdiv.
    pose proof (Z.mod_pos_bound n 10 ltac:(lia)) as Hmod.
    split; [lia|]. split; [lia|].
    split; [rewrite Z.pow_add_r, Z.pow_1_r by lia; lia|].
    split; [lia|]. intros _.
    replace (c + 1 - 1) with c by lia.
    destruct (Z.lt_ge_cases (n / 10) 10) as [Hs | Hb].
    + rewrite (Hone Hs). lia.
    + specialize (Hdown Hb).
      replace c with (Z.succ (c - 1)) by lia.
      rewrite Z.pow_succ_r by lia. lia.
Qed.

(** The digits of [str(n)] are within the limit of [int] exactly for the
    numbers below [10 ^ max_str_digits] in magnitude. *)
Lemma count_digits_str_of_int (n : Z) :
  (max_str_digits <? count_digits (str_of_int n))
  = (10 ^ max_str_digits <=? Z.abs n).
Proof.
  assert (Hnonneg : forall m, 0 <= m ->
            (max_str_digits
               <? count_digits (digits_of (S (Z.to_nat (Z.log2 m))) m EmptyString))
            = (10 ^ max_str_digits <=? m)).
  { intros m Hm.
    destruct (digits_of_count (Z.to_nat (Z.log2 m)) m EmptyString
                (conj Hm (digits_fuel m Hm)))
      as (c & Hcount & Hc & Hup & Hone & Hdown).
    rewrite Hcount. cbn [count_digits]. rewrite Z.add_0_r.
    assert (H10 : 10 <= 10 ^ max_str_digits)
      by (change 10 with (10 ^ 1) at 1; apply Z.pow_le_mono_r; unfold max_str_digits; lia).
    destruct (Z.ltb_spec max_str_digits c) as [Hbig | Hsmall];
      destruct (Z.leb_spec (10 ^ max_str_digits) m) as [Hge | Hlt];
      try reflexivity; exfalso.
    - assert (10 <= m \/ m < 10) as [Hb | Hs] by lia.
      + specialize (Hdown Hb).
        assert (10 ^ max_str_digits <= 10 ^ (c - 1))
          by (apply Z.pow_le_mono_r; lia).
        lia.
      + rewrite (Hone Hs) in Hbig. unfold max_str_digits in Hbig. lia.
    - assert (10 ^ c <= 10 ^ max_str_digits)
        by (apply Z.pow_le_mono_r; lia).
      lia. }
  unfold str_of_int.
  destruct (Z.ltb_spec n 0) as [Hneg | Hpos].
  - cbn [count_digits]. change (is_digit "-") with false. cbv iota.
    rewrite Z.add_0_l, Hnonneg by lia. now rewrite Z.abs_neq by lia.
  - rewrite Hnonneg by lia. now rewrite Z.abs_eq by lia.
Qed.

(** [int] reads back the decimal text of an integer within the limit on
    digits, and refuses the text of any other. *)
Lemma py_int_str_of_int (n : Z) :
  py_int (PStr (str_of_int n))
  = if 10 ^ max_str_digits <=? Z.abs n then Raise ValueError else Ok n.
Proof.
  cbn [py_int]. rewrite count_digits_str_of_int.
  destruct (10 ^ max_str_digits <=? Z.abs n); [reflexivity|].
  destruct (Z.ltb_spec n 0) as [Hneg | Hpos].
  - destruct (str_of_int_nonneg (- n) ltac:(lia)) as (Hall & Hne & Hread).
    assert (E : str_of_int n = String "-" (str_of_int (- n))).
    { unfold str_of_int.
      destruct (Z.ltb_spec n 0); [|lia]. destruct (Z.ltb_spec (- n) 0); [lia|].
      reflexivity. }
    rewrite E, int_of_str_minus_digits, Hread by assumption.
    f_equal. lia.
  - destruct (str_of_int_nonneg n Hpos) as (Hall & Hne & Hread).
    now rewrite int_of_str_digits, Hread.
Qed.

(** X20: a score given as the decimal text of an integer counts as that
    integer when the text has at most 4300 digits, the limit of [int] on a
    [str]; a longer text is skipped like any text that is no number. *)
Theorem decimal_string_score (n : Z) (d : dict pyval) (st : report) :
  dict_get "error" d = None ->
  dict_get "bias_score" d = Some (PStr (str_of_int n)) ->
  exists st',
    process_item (PDict d) st = Ok st'
    /\ (Z.abs n < 10 ^ max_str_digits ->
        all_scores st' = (all_scores st ++ [n])%list)
    /\ (10 ^ max_str_digits <= Z.abs n -> all_scores st' = all_scores st).
Proof.
  intros Herr Hscore.
  eexists. split; [now apply process_item_issue|].
  unfold score_of, dict_get_default. rewrite Hscore, py_int_str_of_int.
  cbn [all_scores].
  destruct (Z.leb_spec (10 ^ max_str_digits) (Z.abs n)); split; intros;
    try reflexivity; lia.
Qed.

Lemma decimal_string_score_witness :
  exists st',
    process_item (PDict [("phrase", PStr "x"); ("bias_score", PStr "70")])
      empty_report = Ok st'
    /\ all_scores st' = [70].
Proof.
  destruct (decimal_string_score 70
              [("phrase", PStr "x"); ("bias_score", PStr "70")]
              empty_report eq_refl eq_refl) as (st' & Hrun & Hcounted & _).
  exists st'. split; [exact Hrun|].
  apply Hcounted. vm_compute. reflexivity.
Defined.

(** ** The labels of the segment picker *)

Lemma remove_char_digits (s : string) :
  all_digits s = true -> remove_char ":" (s ++ String ":" EmptyString) = s.
Proof.
  induction s as [|c s IH]; cbn [append remove_char all_digits]; [reflexivity|].
  intros H. apply andb_prop in H as [Hc Hs].
  apply is_digit_not_special in Hc as [_ ->]. now rewrite IH.
Qed.

(** The second word of a label is the number of the segment and a colon. *)
Lemma split_seg_label (i : nat) (segment : string) :
  nth_error (PyStr.split (seg_label i segment)) 1
  = Some (str_of_int (Z.of_nat i + 1) ++ String ":" EmptyString).
Proof.
  destruct (str_of_int_nonneg (Z.of_nat i + 1) ltac:(lia)) as (Hall & Hne & _).
  unfold seg_label, PyStr.split.
  set (ds := str_of_int (Z.of_nat i + 1)) in *.
  set (tail := PyStr.str_slice segment 0 80 ++ "...").
  change ("Segment " ++ ds ++ ": " ++ tail)
    with ("Segment" ++ String " " (ds ++ String ":" (String " " tail))).
  rewrite PyStrFacts.split_from_word by reflexivity.
  cbn [append PyStr.split_from PyStr.isspace nat_of_ascii].
  change (PyStr.isspace " ") with true. cbv iota.
  replace (ds ++ String ":" (String " " tail))
    with ((ds ++ String ":" EmptyString) ++ String " " tail)
    by (now rewrite PyStrFacts.append_assoc).
  rewrite PyStrFacts.split_from_word
    by (rewrite PyStrFacts.no_space_app, all_digits_no_space by assumption;
        reflexivity).
  cbn [append PyStr.split_from].
  change (PyStr.isspace " ") with true. cbv iota.
  destruct (ds ++ String ":" EmptyString) eqn:E;
    [destruct ds; discriminate E | reflexivity].
Qed.

Lemma choice_index_seg_label (i : nat) (segment : string) :
  choice_index (seg_label i segment) = Ok (Z.of_nat i).
Proof.
  unfold choice_index. rewrite split_seg_label.
  destruct (str_of_int_nonneg (Z.of_nat i + 1) ltac:(lia)) as (Hall & Hne & Hread).
  rewrite remove_char_digits, int_of_str_digits, Hread by assumption.
  cbn [bind]. f_equal. lia.
Qed.

(** The labels are read back in the order of the segments. *)
Lemma choice_index_of_options (segs : list string) :
  forall start i label,
    nth_error (seg_options_from start segs) i = Some label ->
    choice_index label = Ok (Z.of_nat (start + i)).
Proof.
  induction segs as [|seg segs IH]; intros start i label H;
    [destruct i; discriminate H|].
  destruct i as [|i]; cbn [seg_options_from nth_error] in H.
  - injection H as <-. rewrite Nat.add_0_r.
    apply choice_index_seg_label.
  - apply IH in H. rewrite H. f_equal. lia.
Qed.

(** X21: the index read back from the label of segment [i] is [i],
    whatever the text of the segment; two segments never share a label, and
    the option of rank [i] in the picker reads back as [i]. *)
Theorem choice_index_of_label (i : nat) (segment : string) :
  choice_index (seg_label i segment) = Ok (Z.of_nat i)
  /\ (forall j other, seg_label i segment = seg_label j other -> i = j)
  /\ (forall segs label, nth_error (seg_options segs) i = Some label ->
         choice_index label = Ok (Z.of_nat i)).
Proof.
  split; [apply choice_index_seg_label|]. split.
  - intros j other E.
    pose proof (choice_index_seg_label i segment) as Hi.
    rewrite E, choice_index_seg_label in Hi.
    injection Hi as Hi. lia.
  - intros segs label H. now apply (choice_index_of_options segs 0%nat).
Qed.

(** ** More on the relevance gate *)

Lemma str_slice_prefix (prefix rest : string) (n : nat) :
  (n <= String.length prefix)%nat ->
  PyStr.str_slice (prefix ++ rest) 0 (Z.of_nat n)
  = PyStr.str_slice prefix 0 (Z.of_nat n).
Proof.
  intros Hlen. unfold PyStr.str_slice.
  rewrite !PyStrFacts.slice_nonneg by lia.
  rewrite FindFacts.list_ascii_of_string_app.
  cbn [Z.to_nat skipn]. rewrite Z.sub_0_r, Nat2Z.id.
  rewrite firstn_app, FindFacts.length_list_ascii_of_string.
  replace (n - String.length prefix)%nat with 0%nat by lia.
  cbn [firstn]. now rewrite app_nil_r.
Qed.

Lemma length_map_chars (f : ascii -> ascii) (s : string) :
  String.length (PyStr.map_chars f s) = String.length s.
Proof. induction s as [|c s IH]; cbn; [reflexivity | now rewrite IH]. Qed.

Section RelevanceFacts.

Variable chat : string -> string.

(** X22: the verdict depends on the first 1000 characters of the
    document only: what follows them changes neither the prompt nor the
    verdict. *)
Theorem relevance_reads_first_1000 (prefix rest : string) :
  (1000 <= String.length prefix)%nat ->
  relevance_prompt (prefix ++ rest) = relevance_prompt prefix
  /\ check_relevance chat (prefix ++ rest) = check_relevance chat prefix
  /\ main_gate chat (prefix ++ rest) = main_gate chat prefix.
Proof.
  intros Hlen.
  assert (E : relevance_prompt (prefix ++ rest) = relevance_prompt prefix).
  { unfold relevance_prompt.
    change 1000 with (Z.of_nat 1000).
    now rewrite (str_slice_prefix prefix rest 1000 Hlen). }
  unfold main_gate, check_relevance. now rewrite E.
Qed.

(** X23: a reply that, without its surrounding white space, has not
    exactly two characters never stops the analysis: ["NO."], ["No, it is
    not"] and the empty reply pass the gate. *)
Theorem relevance_gate_passes_other_lengths (raw_text : string) :
  String.length (PyStr.strip (chat (relevance_prompt raw_text))) <> 2%nat ->
  main_gate chat raw_text = Relevant.
Proof.
  intros Hlen. unfold main_gate, check_relevance.
  destruct (String.eqb_spec
              (PyStr.upper (PyStr.strip (chat (relevance_prompt raw_text)))) "NO")
    as [E | E]; [|reflexivity].
  exfalso. apply Hlen.
  apply (f_equal String.length) in E.
  unfold PyStr.upper in E. now rewrite length_map_chars in E.
Qed.

End RelevanceFacts.

(** ** The whole run *)

Section RunFacts.

Variable json_loads : string -> result pyval.
Variable chat : string -> string.

(** One turn of the loop on a segment whose reply is parsed. *)
Lemma analysis_loop_step (segs : list string) (idx : nat) (rest : list nat)
    (st : report) (segment : string) (v : pyval) :
  nth_error segs idx = Some segment ->
  analyze_bias json_loads chat segment = Ok v ->
  exists st1,
    process_results v (show [SegmentHeader idx] st) = Ok st1
    /\ analysis_loop json_loads chat segs (idx :: rest) st
       = analysis_loop json_loads chat segs rest st1.
Proof.
  intros Hseg Hres.
  destruct (process_results_on_parsed json_loads _ v
              (show [SegmentHeader idx] st) Hres) as (st1 & H1).
  exists st1. split; [exact H1|].
  cbn [analysis_loop]. rewrite Hseg. cbn [bind]. rewrite Hres. cbn [bind].
  now rewrite H1.
Qed.

End RunFacts.

Section RunSafety.

Variable json_loads : string -> result pyval.
Variable chat : string -> string.

Lemma analyze_bias_raise_kind (segment : string) (e : exn) :
  analyze_bias json_loads chat segment = Raise e -> e = AttributeError.
Proof.
  unfold analyze_bias. intros H.
  destruct (parse_response_cases json_loads
              (PyStr.strip (chat (bias_prompt segment))))
    as [(parsed & Hp & _) | (kind & Hk)].
  - rewrite Hp in H. now apply normalize_parsed_raise in H as [He _].
  - rewrite Hk in H. discriminate.
Qed.

(** X24: the analysis of a selection goes through when every selected
    index is the index of a segment and [analyze_bias] returns on each of
    them. *)
Theorem analysis_loop_returns (segs : list string) (selected : list nat) :
  Forall (fun idx => exists segment v,
            nth_error segs idx = Some segment
            /\ analyze_bias json_loads chat segment = Ok v) selected ->
  forall st, exists st', analysis_loop json_loads chat segs selected st = Ok st'.
Proof.
  induction 1 as [|idx rest (segment & v & Hseg & Hres) _ IH]; intros st.
  - now exists st.
  - destruct (analysis_loop_step json_loads chat segs idx rest st segment v
                Hseg Hres) as (st1 & _ & Hstep).
    rewrite Hstep. apply IH.
Qed.

(** X25: in a run in which the backend answers every call, the analysis
    loop over a selection of indices of segments ends with no exception but
    the [AttributeError] that [analyze_bias] raises on a selected segment:
    no decoding failure and no score that does not convert ends the loop. *)
Theorem analysis_loop_raises_only_attribute_error
    (segs : list string) (selected : list nat) (e : exn) :
  Forall (fun idx => (idx < List.length segs)%nat) selected ->
  forall st,
    analysis_loop json_loads chat segs selected st = Raise e ->
    e = AttributeError
    /\ exists idx segment,
         In idx selected /\ nth_error segs idx = Some segment
         /\ analyze_bias json_loads chat segment = Raise AttributeError.
Proof.
  induction 1 as [|idx rest Hidx _ IH]; intros st Hrun; [discriminate|].
  destruct (nth_error segs idx) as [segment|] eqn:Hseg;
    [|apply nth_error_None in Hseg; lia].
  destruct (analyze_bias json_loads chat segment) as [v|e'] eqn:Hres.
  - destruct (analysis_loop_step json_loads chat segs idx rest st segment v
                Hseg Hres) as (st1 & _ & Hstep).
    rewrite Hstep in Hrun.
    destruct (IH st1 Hrun) as (He & idx' & segment' & Hin & Hseg' & Hres').
    split; [exact He|]. exists idx', segment'. split; [now right | now split].
  - pose proof (analyze_bias_raise_kind segment e' Hres) as ->.
    cbn [analysis_loop] in Hrun. rewrite Hseg in Hrun. cbn [bind] in Hrun.
    rewrite Hres in Hrun. cbn [bind] in Hrun. injection Hrun as <-.
    split; [reflexivity|]. exists idx, segment. split; [now left | now split].
Qed.

Lemma analysis_loop_all_errors (segs : list string) (selected : list nat) :
  Forall (fun idx => exists segment kind raw,
            nth_error segs idx = Some segment
            /\ analyze_bias json_loads chat segment = Ok (error_record kind raw))
    selected ->
  forall st, exists extra,
    analysis_loop json_loads chat segs selected st
    = Ok (show extra st)
    /\ forallb is_diagnostic extra = true.
Proof.
  induction 1 as [|idx rest (segment & kind & raw & Hseg & Hres) _ IH]; intros st.
  - exists []. split; [|reflexivity].
    cbn. unfold show. rewrite app_nil_r. now destruct st.
  - cbn [analysis_loop]. rewrite Hseg. cbn [bind]. rewrite Hres. cbn [bind].
    change (process_results (error_record kind raw) (show [SegmentHeader idx] st))
      with (Ok (show [ParseErrorBox; RawText (PStr raw)]
                  (show [SegmentHeader idx] st))).
    cbn [bind].
    destruct (IH (show [ParseErrorBox; RawText (PStr raw)]
                    (show [SegmentHeader idx] st))) as (extra & Hrun & Hdiag).
    exists (SegmentHeader idx :: ParseErrorBox :: RawText (PStr raw) :: extra).
    split; [|exact Hdiag].
    rewrite Hrun. unfold show. cbn [all_scores all_categories followups page].
    now rewrite <- !app_assoc.
Qed.

(** X26: when every selected segment ends in an error record, the run
    returns a report without score, category or follow-up, and its page has
    headers and diagnostics only: no card, no gauge, no chart and no
    questionnaire. *)
Theorem run_analysis_all_errors (segs : list string) (selected : list nat) :
  selected <> [] ->
  Forall (fun idx => exists segment kind raw,
            nth_error segs idx = Some segment
            /\ analyze_bias json_loads chat segment = Ok (error_record kind raw))
    selected ->
  exists st',
    run_analysis json_loads chat segs selected = Ok st'
    /\ all_scores st' = [] /\ all_categories st' = [] /\ followups st' = []
    /\ forallb is_diagnostic (page st') = true.
Proof.
  intros Hne Hall.
  destruct (analysis_loop_all_errors segs selected Hall empty_report)
    as (extra & Hrun & Hdiag).
  exists (show extra empty_report).
  destruct selected as [|idx rest]; [contradiction|].
  unfold run_analysis. rewrite Hrun. cbn [bind].
  repeat split; try reflexivity.
  - unfold summary, summary_widgets, show. cbn. now rewrite app_nil_r.
  - exact Hdiag.
Qed.

End RunSafety.

(** ** The further properties on concrete replies *)

Lemma parse_response_raises_only_on_non_object_witness :
  AttributeError = AttributeError
  /\ exists items v,
       In v items /\ is_dict v = false
       /\ (Json.loads "[1]" = Ok (PList items)
           \/ Json.loads (PyStr.str_slice "[1]" (PyStr.find "[" "[1]")
                            (PyStr.rfind "]" "[1]" + 1)) = Ok (PList items)).
Proof.
  apply (parse_response_raises_only_on_non_object Json.loads "[1]" AttributeError).
  reflexivity.
Defined.

Lemma parse_response_parse_error_witness :
  parse_response Json.loads "Issues: [vague, evasive]"
  = Ok (PList [PDict [("error", PStr "Parse error");
                      ("raw_output", PStr "Issues: [vague, evasive]")]]).
Proof.
  apply (parse_response_parse_error Json.loads "Issues: [vague, evasive]"
           JSONDecodeError JSONDecodeError); reflexivity.
Defined.

Lemma parse_response_unclosed_bracket_witness :
  PyStr.str_slice "Issues: [1, 2" (PyStr.find "[" "Issues: [1, 2")
    (PyStr.rfind "]" "Issues: [1, 2" + 1) = EmptyString
  /\ parse_response Json.loads "Issues: [1, 2"
     = Ok (PList [PDict [("error", PStr "Parse error");
                         ("raw_output", PStr "Issues: [1, 2")]]).
Proof.
  apply (parse_response_unclosed_bracket Json.loads "Issues: [1, 2"
           JSONDecodeError JSONDecodeError);
    [reflexivity | vm_compute; reflexivity | reflexivity | reflexivity].
Defined.

Lemma process_results_accepts_analyze_bias_witness :
  (exists st',
     process_results
       (PList [PDict [("phrase", PStr "a"); ("category", PStr "Deflection");
                      ("bias_score", PInt 40); ("explanation", PStr "e");
                      ("recommendation", PStr "r")]]) empty_report = Ok st')
  /\ (is_list (PList [PDict [("phrase", PStr "a"); ("category", PStr "Deflection");
                             ("bias_score", PInt 40); ("explanation", PStr "e");
                             ("recommendation", PStr "r")]]) = false
      \/ exists ds,
           PList [PDict [("phrase", PStr "a"); ("category", PStr "Deflection");
                         ("bias_score", PInt 40); ("explanation", PStr "e");
                         ("recommendation", PStr "r")]] = PList (map PDict ds)).
Proof.
  apply (process_results_accepts_analyze_bias Json.loads (fun _ => reply_with_prose)
           "We never had a breach.").
  reflexivity.
Defined.

Lemma analysis_skips_non_list_witness :
  analyze_bias Json.loads (fun _ => issue_object) "We never had a breach."
  = Ok (PDict [("phrase", PStr "a"); ("category", PStr "Deflection");
               ("bias_score", PInt 40); ("explanation", PStr "e");
               ("recommendation", PStr "r")])
  /\ analysis_loop Json.loads (fun _ => issue_object) ["We never had a breach."]
       [0%nat] empty_report
     = analysis_loop Json.loads (fun _ => issue_object) ["We never had a breach."]
         [] (show [SegmentHeader 0] empty_report).
Proof.
  apply (analysis_skips_non_list Json.loads (fun _ => issue_object)
           ["We never had a breach."] 0 [] empty_report "We never had a breach.");
    reflexivity.
Defined.


Lemma relevance_reads_first_1000_witness :
  (1000 <= String.length long_text)%nat
  /\ relevance_prompt (long_text ++ " and an appendix") = relevance_prompt long_text.
Proof.
  assert (H : (1000 <= String.length long_text)%nat) by (vm_compute; lia).
  split; [exact H|].
  exact (proj1 (relevance_reads_first_1000 (fun _ => "NO") long_text
                  " and an appendix" H)).
Defined.

Lemma relevance_gate_passes_other_lengths_witness :
  main_gate (fun _ => " NO. ") "Once upon a time" = Relevant.
Proof.
  apply (relevance_gate_passes_other_lengths (fun _ => " NO. ")).
  vm_compute. discriminate.
Defined.

Lemma analysis_loop_returns_witness :
  exists st',
    analysis_loop Json.loads (fun _ => reply_with_prose)
      ["We never had a breach."; "All staff are trained."] [1%nat; 0%nat]
      empty_report = Ok st'.
Proof.
  apply (analysis_loop_returns Json.loads (fun _ => reply_with_prose)).
  apply Forall_cons; [|apply Forall_cons; [|apply Forall_nil]].
  - exists "All staff are trained.",
      (PList [PDict [("phrase", PStr "a"); ("category", PStr "Deflection");
                     ("bias_score", PInt 40); ("explanation", PStr "e");
                     ("recommendation", PStr "r")]]).
    split; reflexivity.
  - exists "We never had a breach.",
      (PList [PDict [("phrase", PStr "a"); ("category", PStr "Deflection");
                     ("bias_score", PInt 40); ("explanation", PStr "e");
                     ("recommendation", PStr "r")]]).
    split; reflexivity.
Defined.

Lemma analysis_loop_raises_only_attribute_error_witness :
  AttributeError = AttributeError
  /\ exists idx segment,
       In idx [0%nat] /\ nth_error ["We never had a breach."] idx = Some segment
       /\ analyze_bias Json.loads (fun _ => "[1]") segment = Raise AttributeError.
Proof.
  apply (analysis_loop_raises_only_attribute_error Json.loads (fun _ => "[1]")
           ["We never had a breach."] [0%nat] AttributeError) with (st := empty_report).
  - apply Forall_cons; [cbn; lia | apply Forall_nil].
  - reflexivity.
Defined.

Lemma run_analysis_all_errors_witness :
  exists st',
    run_analysis Json.loads (fun _ => "Sorry, I can't help.")
      ["We never had a breach."; "All staff are trained."] [0%nat; 1%nat] = Ok st'
    /\ all_scores st' = [] /\ all_categories st' = [] /\ followups st' = []
    /\ forallb is_diagnostic (page st') = true.
Proof.
  apply (run_analysis_all_errors Json.loads (fun _ => "Sorry, I can't help.")).
  - discriminate.
  - apply Forall_cons; [|apply Forall_cons; [|apply Forall_nil]].
    + exists "We never had a breach.", "No JSON detected", "Sorry, I can't help.".
      split; reflexivity.
    + exists "All staff are trained.", "No JSON detected", "Sorry, I can't help.".
      split; reflexivity.
Defined.

(** ** The text extractor *)

Lemma pdf_text_from (pages : list (option string)) :
  forall text,
    fold_left (fun t page => t ++ page_text page) pages text
    = text ++ String.concat EmptyString (map page_text pages).
Proof.
  induction pages as [|page pages IH]; intros text; cbn [fold_left map].
  - cbn. now rewrite PyStrFacts.append_nil_r.
  - rewrite IH, PyStrFacts.append_assoc. f_equal.
    destruct pages; cbn; [now rewrite PyStrFacts.append_nil_r | reflexivity].
Qed.

Lemma pdf_text_app (pre post : list (option string)) :
  pdf_text (pre ++ post) = pdf_text pre ++ pdf_text post.
Proof.
  unfold pdf_text. rewrite fold_left_app, (pdf_text_from post).
  now rewrite (pdf_text_from post EmptyString).
Qed.

Lemma pdf_text_cons (page : option string) (pages : list (option string)) :
  pdf_text (page :: pages) = page_text page ++ pdf_text pages.
Proof. apply (pdf_text_app [page] pages). Qed.

(** White space ends the word being read and starts the rest afresh. *)
Lemma split_from_space (x y : string) :
  forall cur,
    PyStr.split_from cur (x ++ String " " y)
    = (PyStr.split_from cur x ++ PyStr.split_from EmptyString y)%list.
Proof.
  induction x as [|c x IH]; intros cur; cbn [append PyStr.split_from].
  - change (PyStr.isspace " ") with true. cbv iota. now destruct cur.
  - destruct (PyStr.isspace c); [|apply IH].
    destruct cur; [apply IH | cbn [app]; f_equal; apply IH].
Qed.

Section ExtractorFacts.

Variable file : Type.
Variable file_name : file -> string.
Variable page_texts : file -> list (option string).
Variable read_utf8 : file -> result string.

(** X27: the text of a PDF is the texts of its pages in page order with
    nothing between them; a page without text adds nothing, and never makes
    the extraction fail. *)
Theorem extract_text_pdf (f : file) :
  ends_with ".pdf" (file_name f) = true ->
  extract_text file file_name page_texts read_utf8 f
  = Ok (String.concat EmptyString (map page_text (page_texts f)))
  /\ extract_text file file_name page_texts read_utf8 f
     = Ok (pdf_text (filter has_text (page_texts f))).
Proof.
  intros Hpdf. unfold extract_text. rewrite Hpdf.
  split.
  - unfold pdf_text. now rewrite pdf_text_from.
  - f_equal. induction (page_texts f) as [|page pages IH]; [reflexivity|].
    cbn [filter]. destruct page as [[|c s]|]; cbn [has_text];
      rewrite ?pdf_text_cons, IH; reflexivity.
Qed.

(** X28: nothing separates two pages: when a page ends in a word and the
    next one starts with a word, the two are read as one word. *)
Theorem extract_text_joins_pages (f : file)
    (pre post : list (option string)) (a u v b : string) :
  ends_with ".pdf" (file_name f) = true ->
  page_texts f
  = (pre ++ Some (a ++ String " " u)%string
         :: Some (v ++ String " " b)%string :: post)%list ->
  is_word u -> is_word v ->
  exists text,
    extract_text file file_name page_texts read_utf8 f = Ok text
    /\ PyStr.split text
       = (PyStr.split (pdf_text pre ++ a)%string ++ [(u ++ v)%string]
          ++ PyStr.split (b ++ pdf_text post)%string)%list.
Proof.
  intros Hpdf Hpages [Hu Hus] [Hv Hvs].
  unfold extract_text. rewrite Hpdf, Hpages.
  eexists. split; [reflexivity|].
  rewrite pdf_text_app, !pdf_text_cons. cbn [page_text].
  unfold PyStr.split.
  replace (pdf_text pre ++ (a ++ String " " u) ++ (v ++ String " " b) ++ pdf_text post)
    with ((pdf_text pre ++ a) ++ String " " ((u ++ v) ++ String " " (b ++ pdf_text post))).
  - rewrite split_from_space. f_equal.
    rewrite PyStrFacts.split_from_word
      by (rewrite PyStrFacts.no_space_app, Hus, Hvs; reflexivity).
    cbn [append PyStr.split_from].
    change (PyStr.isspace " ") with true. cbv iota.
    destruct (u ++ v) eqn:E; [destruct u; [contradiction | discriminate E]|].
    reflexivity.
  - rewrite !PyStrFacts.append_assoc. cbn [append].
    now rewrite ?PyStrFacts.append_assoc.
Qed.

End ExtractorFacts.

Lemma extract_text_pdf_witness :
  extract_text unit (fun _ => "audit.pdf")
    (fun _ => [Some "Page one. "; None; Some ""; Some "Page three."])
    (fun _ => Raise ValueError) tt
  = Ok "Page one. Page three.".
Proof.
  exact (proj1 (extract_text_pdf unit (fun _ => "audit.pdf")
                  (fun _ => [Some "Page one. "; None; Some ""; Some "Page three."])
                  (fun _ => Raise ValueError) tt eq_refl)).
Defined.

Lemma extract_text_joins_pages_witness :
  exists text,
    extract_text unit (fun _ => "audit.pdf")
      (fun _ => [Some "fully compliant"; Some "with policy"])
      (fun _ => Raise ValueError) tt = Ok text
    /\ PyStr.split text = ["fully"; "compliantwith"; "policy"].
Proof.
  apply (extract_text_joins_pages unit (fun _ => "audit.pdf")
           (fun _ => [Some "fully compliant"; Some "with policy"])
           (fun _ => Raise ValueError) tt [] [] "fully" "compliant" "with" "policy");
    [reflexivity | reflexivity | split; [discriminate | reflexivity]
     | split; [discriminate | reflexivity]].
Defined.
